(** * Virtual Pet Simulator (SEP.py): the pet state machine

    A shallow embedding of [clamp], the class [Pet] and its methods
    [feed], [play], [give_toy], [give_medicine] and [tick], followed by
    the properties of the pet state machine.

    Python integers are [Z].  A method mutates [self] and returns
    [None]; here it maps the pet before the call to the pet after it.
    A call either returns or raises, which is the type [outcome].
    [tick] also reads the process-wide random generator and prints; the
    generator is threaded through and the printed lines are returned. *)

From Stdlib Require Import ZArith List String Bool Lia.
Import ListNotations.
Local Open Scope Z_scope.

(** ** Constants *)

Definition MIN_LEVEL : Z := 0.
Definition MAX_LEVEL : Z := 100.

Definition BASE_HUNGER_INCREASE : Z * Z := (3, 7).
Definition BASE_HAPPINESS_DECREASE : Z * Z := (2, 5).

(** An entry of [RANDOM_EVENTS]: a dict with the keys ["name"],
    ["hunger_delta"] and ["happiness_delta"]. *)
Record RandomEvent : Type := mkEvent {
  event_name : string;
  hunger_delta : Z;
  happiness_delta : Z
}.

Definition RANDOM_EVENTS : list RandomEvent :=
  [ mkEvent "Found a snack" (-10) 0;
    mkEvent "Found a toy" 0 10;
    mkEvent "Got sick" 15 (-10);
    mkEvent "Took a nap" (-5) 5 ].

(** ** clamp *)

(** [max(low, min(high, value))]. *)
Definition clamp (value low high : Z) : Z := Z.max low (Z.min high value).

(** [clamp(value)] with the default bounds [low=MIN_LEVEL],
    [high=MAX_LEVEL], which is how every call site uses it. *)
Definition clamp_level (value : Z) : Z := clamp value MIN_LEVEL MAX_LEVEL.

(** ** The pet *)

Record Pet : Type := mkPet {
  name : string;
  hunger : Z;
  happiness : Z;
  age_hours : Z;
  alive : bool
}.

(** [Pet.__init__]. *)
Definition Pet_init (nm : string) : Pet := mkPet nm 50 50 0 true.

(** Attribute assignments [self.f = v]. *)
Definition set_hunger (self : Pet) (v : Z) : Pet :=
  mkPet (name self) v (happiness self) (age_hours self) (alive self).
Definition set_happiness (self : Pet) (v : Z) : Pet :=
  mkPet (name self) (hunger self) v (age_hours self) (alive self).
Definition set_age_hours (self : Pet) (v : Z) : Pet :=
  mkPet (name self) (hunger self) (happiness self) v (alive self).
Definition set_alive (self : Pet) (v : bool) : Pet :=
  mkPet (name self) (hunger self) (happiness self) (age_hours self) v.

(** ** Calls that return or raise *)

Inductive outcome (A : Type) : Type :=
| Returned (a : A)
| Raised (exc : string).
Arguments Returned {A} a.
Arguments Raised {A} exc.

(** ** Gameplay actions *)

Definition feed (self : Pet) : outcome Pet :=
  let self := set_hunger self (clamp_level (hunger self - 15)) in
  let self := set_happiness self (clamp_level (happiness self - 2)) in
  Returned self.

Definition play (self : Pet) : outcome Pet :=
  let self := set_happiness self (clamp_level (happiness self + 12)) in
  let self := set_hunger self (clamp_level (hunger self + 6)) in
  Returned self.

Definition give_toy (self : Pet) : outcome Pet :=
  let self := set_happiness self (clamp_level (happiness self + 8)) in
  let self := set_hunger self (clamp_level (hunger self + 2)) in
  Returned self.

Definition give_medicine (self : Pet) : outcome Pet :=
  let self := set_hunger self (clamp_level (hunger self - 8)) in
  let self := set_happiness self (clamp_level (happiness self + 3)) in
  Returned self.

(** ** The random generator

    One simulated hour draws, in this order,
    [random.randint( *BASE_HUNGER_INCREASE)],
    [random.randint( *BASE_HAPPINESS_DECREASE)] and [random.random()],
    and, when that last draw is below [EVENT_PROBABILITY],
    [random.choice(RANDOM_EVENTS)].  [EVENT_PROBABILITY] is a float that
    is only ever compared with the draw, so the record keeps what the
    comparison and the choice decide: [Some evt] when an event occurs. *)
Record Draws : Type := mkDraws {
  randint_hunger : Z;
  randint_happiness : Z;
  random_event : option RandomEvent
}.

(** The generator as the sequence of the draws it is going to produce,
    hour after hour. *)
Definition Random : Type := nat -> Draws.

Definition next_draws (g : Random) : Draws := g O.
Definition advance (g : Random) : Random := fun i => g (S i).

(** What the library promises about the draws.  No property below
    needs it except where it is assumed explicitly. *)
Definition draws_in_range (d : Draws) : Prop :=
  fst BASE_HUNGER_INCREASE <= randint_hunger d <= snd BASE_HUNGER_INCREASE /\
  fst BASE_HAPPINESS_DECREASE <= randint_happiness d <= snd BASE_HAPPINESS_DECREASE /\
  match random_event d with
  | Some evt => In evt RANDOM_EVENTS
  | None => True
  end.

(** ** tick *)

(** The printed lines. *)
Definition event_message (self : Pet) (evt : RandomEvent) : string :=
  ("[Random event] " ++ name self ++ ": " ++ event_name evt)%string.
Definition hungry_message (self : Pet) : string :=
  (name self ++ " became too hungry. Game over.")%string.
Definition sad_message (self : Pet) : string :=
  (name self ++ " became too sad. Game over.")%string.

(** The body of the loop from [self.age_hours += 1] down to the
    too-hungry penalty, that is everything before the game-over
    checks.  Returns the pet and the lines printed so far. *)
Definition adjust (self : Pet) (d : Draws) (out : list string)
  : Pet * list string :=
  let self := set_age_hours self (age_hours self + 1) in
  let self := set_hunger self (clamp_level (hunger self + randint_hunger d)) in
  let self := set_happiness self (clamp_level (happiness self - randint_happiness d)) in
  let '(self, out) :=
    match random_event d with
    | Some evt =>
        let self := set_hunger self (clamp_level (hunger self + hunger_delta evt)) in
        let self := set_happiness self (clamp_level (happiness self + happiness_delta evt)) in
        (self, out ++ [event_message self evt])
    | None => (self, out)
    end in
  let self :=
    if hunger self >? 80
    then set_happiness self (clamp_level (happiness self - 5))
    else self in
  (self, out).

(** [for _ in range(hours)], with [n] the iterations still to run. *)
Fixpoint tick_loop (n : nat) (self : Pet) (g : Random) (out : list string)
  : outcome (Pet * Random * list string) :=
  match n with
  | O => Returned (self, g, out)
  | S n' =>
      if negb (alive self) then Returned (self, g, out)
      else
        let '(self, out) := adjust self (next_draws g) out in
        let g := advance g in
        if hunger self >=? MAX_LEVEL then
          let self := set_alive self false in
          Returned (self, g, out ++ [hungry_message self])
        else if happiness self <=? MIN_LEVEL then
          let self := set_alive self false in
          Returned (self, g, out ++ [sad_message self])
        else tick_loop n' self g out
  end.

(** [Pet.tick]: [range(hours)] is empty when [hours <= 0]. *)
Definition tick (self : Pet) (hours : Z) (g : Random)
  : outcome (Pet * Random * list string) :=
  tick_loop (Z.to_nat hours) self g [].

(** ** Sequences of calls *)

Inductive call : Type :=
| Feed
| Play
| GiveToy
| GiveMedicine
| Tick (hours : Z).

Definition lift (g : Random) (o : outcome Pet)
  : outcome (Pet * Random * list string) :=
  match o with
  | Returned self => Returned (self, g, [])
  | Raised exc => Raised exc
  end.

Definition invoke (c : call) (self : Pet) (g : Random)
  : outcome (Pet * Random * list string) :=
  match c with
  | Feed => lift g (feed self)
  | Play => lift g (play self)
  | GiveToy => lift g (give_toy self)
  | GiveMedicine => lift g (give_medicine self)
  | Tick hours => tick self hours g
  end.

(** The pets after each call of a sequence, in order; the sequence
    stops at a call that raises. *)
Fixpoint run (cs : list call) (self : Pet) (g : Random) : list Pet :=
  match cs with
  | [] => []
  | c :: cs' =>
      match invoke c self g with
      | Returned (self', g', _) => self' :: run cs' self' g'
      | Raised _ => []
      end
  end.

(** The pets a program can hold: a new pet, and whatever a call on a
    reachable pet returns, whatever the generator draws. *)
Inductive reachable : Pet -> Prop :=
| reach_init : forall nm, reachable (Pet_init nm)
| reach_call : forall c self g self' g' out,
    reachable self ->
    invoke c self g = Returned (self', g', out) ->
    reachable self'.

(** A level attribute is within its bounds. *)
Definition level (v : Z) : Prop := MIN_LEVEL <= v <= MAX_LEVEL.

Definition levels_ok (self : Pet) : Prop :=
  level (hunger self) /\ level (happiness self).

(** The pet that [tick(hours)] leaves behind. *)
Definition pet_after (hours : Z) (self : Pet) (g : Random) : Pet :=
  match tick self hours g with
  | Returned (self', _, _) => self'
  | Raised _ => self
  end.

(** [h] hours are processed until the terminal transition, the terminal
    hour counted: the pet is dead after [h] hours and alive after any
    fewer.  A pet that is already dead has [h = 0]. *)
Definition terminal_hour (self : Pet) (g : Random) (h : nat) : Prop :=
  alive (pet_after (Z.of_nat h) self g) = false /\
  forall k, (k < h)%nat -> alive (pet_after (Z.of_nat k) self g) = true.

(** A generator that always makes the same draws. *)
Definition constant_draws (d : Draws) : Random := fun _ => d.

(** ** Specification-side definitions *)

(** The hour as the specification orders it: age, hunger draw,
    happiness draw, then the event's deltas, then the too-hungry penalty
    on the hunger that the event left, then the game-over checks on the
    levels that the penalty left. *)
Definition hour_by_steps (self : Pet) (d : Draws) : Pet :=
  let h1 := clamp_level (hunger self + randint_hunger d) in
  let a1 := clamp_level (happiness self - randint_happiness d) in
  let h2 := match random_event d with
            | Some evt => clamp_level (h1 + hunger_delta evt)
            | None => h1
            end in
  let a2 := match random_event d with
            | Some evt => clamp_level (a1 + happiness_delta evt)
            | None => a1
            end in
  let a3 := if 80 <? h2 then clamp_level (a2 - 5) else a2 in
  mkPet (name self) h2 a3 (age_hours self + 1)
    (negb ((h2 =? 100) || (a3 =? 0))).

(** The pet attributes that the four actions never assign. *)
Definition same_frame (self self' : Pet) : Prop :=
  name self' = name self /\
  age_hours self' = age_hours self /\
  alive self' = alive self.

(** ** Concrete pets used in the examples *)

(** Draws that starve a new pet: the largest hunger increase, the
    smallest happiness decrease, no event. *)
Definition starving_draws : Random := constant_draws (mkDraws 7 2 None).

(** The pet ["Tom"] after eight such hours: hunger went 57, 64, 71, 78,
    85, 92, 99, 100 and the eighth hour was terminal. *)
Definition starved_tom : Pet := pet_after 8 (Pet_init "Tom") starving_draws.

From Stdlib Require Import Ascii DecimalString SpecFloat.

(** * The display, the pet manager and the menu loop

    The rest of SEP.py: [bar], [Pet.status_string], the class
    [PetManager], [print_menu], [ensure_active_pet] and [main]. *)

(** ** Built-ins on outcomes, ints and strings *)

Definition and_then {A B : Type} (o : outcome A) (k : A -> outcome B)
  : outcome B :=
  match o with
  | Returned a => k a
  | Raised exc => Raised exc
  end.

Notation "'let?' x ':=' c 'in' k" := (and_then c (fun x => k))
  (at level 10, x pattern, c at level 100, k at level 200).

(** The character ["\n"]. *)
Definition newline : string := String "010"%char EmptyString.

(** [str(n)] for an int [n]. *)
Definition str_of_int (n : Z) : string := NilZero.string_of_int (Z.to_int n).

(** [s * n] for a str [s] and an int [n]: empty when [n <= 0]. *)
Fixpoint repeat_string (s : string) (n : nat) : string :=
  match n with
  | O => EmptyString
  | S n' => (s ++ repeat_string s n')%string
  end.

Definition str_mul (s : string) (n : Z) : string :=
  repeat_string s (Z.to_nat n).

(** The format [{n:3d}]: the decimal digits, right-aligned with spaces
    in a field of width 3, longer when the digits need it. *)
Definition format_3d (n : Z) : string :=
  let s := str_of_int n in
  (str_mul " " (3 - Z.of_nat (String.length s)) ++ s)%string.

(** ** Floats

    A Python float is an IEEE 754 binary64 number: [spec_float] at
    precision 53 and maximal exponent 1024, every operation rounding to
    nearest, ties to even. *)
Definition prec : Z := 53.
Definition emax : Z := 1024.

(** An int as the operand of a float operation: rounded to the nearest
    float, [OverflowError] when it is too large for one. *)
Definition float_of_int (n : Z) : outcome spec_float :=
  match binary_normalize prec emax n 0 false with
  | S754_infinity _ => Raised "OverflowError"
  | x => Returned x
  end.

(** [a / b] on two ints: the exact quotient, rounded once. *)
Definition int_truediv (a b : Z) : outcome spec_float :=
  if b =? 0 then Raised "ZeroDivisionError"
  else
    match a with
    | Z0 => Returned (S754_zero (b <? 0))
    | _ =>
        match SFdiv prec emax
                (S754_finite (a <? 0) (Z.to_pos (Z.abs a)) 0)
                (S754_finite (b <? 0) (Z.to_pos (Z.abs b)) 0) with
        | S754_infinity _ => Raised "OverflowError"
        | x => Returned x
        end
    end.

(** [x * n] for a float [x] and an int [n]. *)
Definition float_mul_int (x : spec_float) (n : Z) : outcome spec_float :=
  let? y := float_of_int n in
  Returned (SFmul prec emax x y).

(** [int(x)] for a float [x]: truncation towards zero. *)
Definition int_of_float (x : spec_float) : outcome Z :=
  match x with
  | S754_zero _ => Returned 0
  | S754_finite s m e =>
      let magnitude :=
        if e <? 0 then Z.pos m / 2 ^ (- e) else Z.pos m * 2 ^ e in
      Returned (if s then - magnitude else magnitude)
  | S754_infinity _ => Raised "OverflowError"
  | S754_nan => Raised "ValueError"
  end.

(** ** bar and status_string *)

(** [bar(value, width)]; the default [width] is 20. *)
Definition bar (value width : Z) : outcome string :=
  let? ratio := int_truediv value 100 in
  let? scaled := float_mul_int ratio width in
  let? filled := int_of_float scaled in
  Returned ("[" ++ str_mul "#" filled ++ str_mul "-" (width - filled) ++ "]")%string.

Definition status_string (self : Pet) : outcome string :=
  let? hunger_bar := bar (hunger self) 20 in
  let? happiness_bar := bar (happiness self) 20 in
  Returned
    ("Name: " ++ name self ++ newline ++
     "Hunger:    " ++ format_3d (hunger self) ++ " " ++ hunger_bar ++
       " (0=full, 100=starving)" ++ newline ++
     "Happiness: " ++ format_3d (happiness self) ++ " " ++ happiness_bar ++
       " (0=sad, 100=very happy)" ++ newline ++
     "Age (hours): " ++ str_of_int (age_hours self) ++ newline ++
     "State: " ++ (if alive self then "OK" else "Game Over"))%string.

(** ** The console and the generator

    [stdin] holds the lines still to be read, [stdout] what was written,
    one entry per call, oldest first: [print(s)] writes [s] and a
    newline, [input(prompt)] writes [prompt].  [rng] is the process-wide
    generator that [tick] draws from. *)
Record World : Type := mkWorld {
  stdin : list string;
  stdout : list string;
  rng : Random
}.

(** Code that reads, writes and draws: from a world to a result and a
    world, or to an exception. *)
Definition IO (A : Type) : Type := World -> outcome (A * World).

Definition ret {A : Type} (a : A) : IO A := fun w => Returned (a, w).

Definition bind {A B : Type} (c : IO A) (k : A -> IO B) : IO B :=
  fun w =>
    match c w with
    | Returned (a, w') => k a w'
    | Raised exc => Raised exc
    end.

Notation "x <- c ;; k" := (bind c (fun x => k))
  (at level 61, c at next level, right associativity).
Notation "c ;; k" := (bind c (fun _ => k))
  (at level 61, right associativity).

(** A call that touches no world. *)
Definition pure_call {A : Type} (o : outcome A) : IO A :=
  fun w =>
    match o with
    | Returned a => Returned (a, w)
    | Raised exc => Raised exc
    end.

Definition print (s : string) : IO unit :=
  fun w =>
    Returned (tt, mkWorld (stdin w) (stdout w ++ [(s ++ newline)%string]) (rng w)).

(** [input(prompt)]: [EOFError] when no line is left. *)
Definition input (prompt : string) : IO string :=
  fun w =>
    match stdin w with
    | [] => Raised "EOFError"
    | line :: rest =>
        Returned (line, mkWorld rest (stdout w ++ [prompt]) (rng w))
    end.

(** [pet.tick(hours)] on the world's generator and console. *)
Definition tick_io (self : Pet) (hours : Z) : IO Pet :=
  fun w =>
    match tick self hours (rng w) with
    | Returned (self', g, out) =>
        Returned
          (self',
           mkWorld (stdin w)
             (stdout w ++ map (fun s => (s ++ newline)%string) out) g)
    | Raised exc => Raised exc
    end.

(** The two library functions that the menu applies to what the user
    typed: [str.strip()] and [int(str)], the latter [None] where Python
    raises [ValueError].  They are parameters of what follows. *)
Class Builtins : Type := {
  str_strip : string -> string;
  int_of_str : string -> option Z
}.

(** ** PetManager *)

Record PetManager : Type := mkManager {
  pets : list Pet;
  active_index : option Z
}.

(** [PetManager.__init__]. *)
Definition PetManager_init : PetManager := mkManager [] None.

(** The position that the subscript [l[i]] reads in a list of length
    [len]: negative subscripts count from the end, anything else out of
    range is an [IndexError]. *)
Definition subscript (len : nat) (i : Z) : outcome nat :=
  if (0 <=? i) && (i <? Z.of_nat len) then Returned (Z.to_nat i)
  else if (- Z.of_nat len <=? i) && (i <? 0) then
    Returned (Z.to_nat (Z.of_nat len + i))
  else Raised "IndexError".

(** A pet object held in a variable: its position in [self.pets] and its
    attributes.  A method called through the variable changes the object
    in the list; [put] writes the attributes back at the position. *)
Definition PetRef : Type := (nat * Pet)%type.

Fixpoint replace_at (l : list Pet) (pos : nat) (p : Pet) : list Pet :=
  match l, pos with
  | [], _ => []
  | _ :: l', O => p :: l'
  | q :: l', S pos' => q :: replace_at l' pos' p
  end.

Definition put (self : PetManager) (pos : nat) (p : Pet) : PetManager :=
  mkManager (replace_at (pets self) pos p) (active_index self).

Definition get_active (self : PetManager) : outcome (option PetRef) :=
  match active_index self with
  | None => Returned None
  | Some i =>
      match pets self with
      | [] => Returned None
      | _ =>
          let? pos := subscript (List.length (pets self)) i in
          match nth_error (pets self) pos with
          | Some p => Returned (Some (pos, p))
          | None => Raised "IndexError"
          end
      end
  end.

(** The line that [list_pets] prints for the pet [p] at position [i]. *)
Definition list_line (self : PetManager) (i : nat) (p : Pet) : string :=
  let marker :=
    match active_index self with
    | Some a => if Z.of_nat i =? a then " (active)"%string else ""%string
    | None => ""%string
    end in
  let state := if alive p then "alive"%string else "game over"%string in
  (str_of_int (Z.of_nat i + 1) ++ ". " ++ name p ++ " - hunger " ++
   str_of_int (hunger p) ++ ", happiness " ++ str_of_int (happiness p) ++
   ", " ++ state ++ marker)%string.

(** [for i, p in enumerate(self.pets)], from position [i] on. *)
Fixpoint list_lines (self : PetManager) (i : nat) (ps : list Pet) : IO unit :=
  match ps with
  | [] => ret tt
  | p :: ps' => print (list_line self i p) ;; list_lines self (S i) ps'
  end.

Definition list_pets (self : PetManager) : IO unit :=
  match pets self with
  | [] => print "No pets created yet."
  | _ => list_lines self O (pets self)
  end.

Section Session.

Context {builtins : Builtins}.

Definition create_pet (self : PetManager) : IO PetManager :=
  line <- input "Enter pet name: " ;;
  let nm := str_strip line in
  if (nm =? "")%string then
    print "Invalid name." ;; ret self
  else
    let pet := Pet_init nm in
    let self := mkManager (pets self ++ [pet]) (active_index self) in
    let self :=
      mkManager (pets self) (Some (Z.of_nat (List.length (pets self)) - 1)) in
    print ("Created pet '" ++ nm ++ "' and set as active.") ;;
    ret self.

Definition switch_active (self : PetManager) : IO PetManager :=
  match pets self with
  | [] => print "No pets to switch." ;; ret self
  | _ =>
      list_pets self ;;
      line <- input "Select active pet number: " ;;
      match int_of_str line with
      | None => print "Please enter a number." ;; ret self
      | Some choice =>
          if (1 <=? choice) && (choice <=? Z.of_nat (List.length (pets self)))
          then
            let self := mkManager (pets self) (Some (choice - 1)) in
            pet <- pure_call
                     (let? pos := subscript (List.length (pets self)) (choice - 1) in
                      match nth_error (pets self) pos with
                      | Some p => Returned p
                      | None => Raised "IndexError"
                      end) ;;
            print ("Active pet set to '" ++ name pet ++ "'.") ;;
            ret self
          else print "Invalid selection." ;; ret self
      end
  end.

(** ** The menu *)

Definition print_menu : IO unit :=
  print (newline ++ "------ Virtual Pet Simulator ------") ;;
  print "1. Feed active pet" ;;
  print "2. Play with active pet" ;;
  print "3. Give toy to active pet" ;;
  print "4. Give medicine to active pet" ;;
  print "5. Check active pet status" ;;
  print "6. Advance time (1 hour)" ;;
  print "7. Create a new pet" ;;
  print "8. Switch active pet" ;;
  print "9. List all pets" ;;
  print "0. Quit".

Definition ensure_active_pet (manager : PetManager)
  : IO (option PetRef * PetManager) :=
  pet <- pure_call (get_active manager) ;;
  match pet with
  | Some _ => ret (pet, manager)
  | None =>
      print "No active pet. Create one first." ;;
      manager <- create_pet manager ;;
      pet <- pure_call (get_active manager) ;;
      ret (pet, manager)
  end.

(** [choice in {...}] for the two sets of menu keys. *)
Definition is_pet_choice (choice : string) : bool :=
  existsb (String.eqb choice) ["1"; "2"; "3"; "4"; "5"; "6"]%string.
Definition is_action_choice (choice : string) : bool :=
  existsb (String.eqb choice) ["1"; "2"; "3"; "4"]%string.

(** [for _ in range(hours): time.sleep(0.05); pet.tick(1)].  The sleep
    changes nothing that is modelled. *)
Fixpoint hourly_ticks (n : nat) (pet : Pet) : IO Pet :=
  match n with
  | O => ret pet
  | S n' => pet <- tick_io pet 1 ;; hourly_ticks n' pet
  end.

(** The hour count of menu key 6, from the line typed. *)
Definition hours_of_line (line : string) : Z :=
  let hours := str_strip line in
  if (hours =? "")%string then Z.max 1 (Z.min 24 1)
  else
    match int_of_str hours with
    | Some n => Z.max 1 (Z.min 24 n)
    | None => 1
    end.

(** How an iteration of [while True] ends. *)
Inductive control : Type := Continue | Break.

(** One action key: the method, the line printed, then [pet.tick(1)]. *)
Definition action (method : Pet -> outcome Pet) (said : Pet -> string)
    (manager : PetManager) (ref : PetRef) : IO (control * PetManager) :=
  let '(pos, pet) := ref in
  pet <- pure_call (method pet) ;;
  print (said pet) ;;
  pet <- tick_io pet 1 ;;
  ret (Continue, put manager pos pet).

(** The [if]/[elif] chain on [choice].  [pet] is the variable that the
    keys 1 to 6 have just bound; it is read under those keys only, so the
    [None] case of [with_pet], a read of an unbound variable, is never
    taken from [iteration]. *)
Definition dispatch (choice : string) (pet : option PetRef)
    (manager : PetManager) : IO (control * PetManager) :=
  let with_pet (k : PetRef -> IO (control * PetManager)) :=
    match pet with
    | Some ref => k ref
    | None => fun _ => Raised "UnboundLocalError"
    end in
  if (choice =? "1")%string then
    with_pet (action feed (fun p => name p ++ " has been fed.")%string manager)
  else if (choice =? "2")%string then
    with_pet (action play (fun p => "You played with " ++ name p ++ ".")%string manager)
  else if (choice =? "3")%string then
    with_pet (action give_toy (fun p => name p ++ " enjoyed a new toy.")%string manager)
  else if (choice =? "4")%string then
    with_pet (action give_medicine (fun p => name p ++ " took some medicine.")%string manager)
  else if (choice =? "5")%string then
    with_pet (fun ref =>
      status <- pure_call (status_string (snd ref)) ;;
      print (newline ++ status) ;;
      ret (Continue, manager))
  else if (choice =? "6")%string then
    with_pet (fun ref =>
      line <- input "Advance how many hours? (default 1): " ;;
      let hours := hours_of_line line in
      print ("Advancing time by " ++ str_of_int hours ++ " hour(s)...") ;;
      pet <- hourly_ticks (Z.to_nat hours) (snd ref) ;;
      print "Time advanced." ;;
      ret (Continue, put manager (fst ref) pet))
  else if (choice =? "7")%string then
    manager <- create_pet manager ;; ret (Continue, manager)
  else if (choice =? "8")%string then
    manager <- switch_active manager ;; ret (Continue, manager)
  else if (choice =? "9")%string then
    list_pets manager ;; ret (Continue, manager)
  else
    print "Invalid option. Please choose a valid menu item." ;;
    ret (Continue, manager).

(** The body of [while True] in [main]. *)
Definition iteration (manager : PetManager) : IO (control * PetManager) :=
  print_menu ;;
  line <- input "Choose an option: " ;;
  let choice := str_strip line in
  if (choice =? "")%string then ret (Continue, manager)
  else if (choice =? "0")%string then
    print "Exiting. Thanks for playing." ;; ret (Break, manager)
  else if is_pet_choice choice then
    ensured <- ensure_active_pet manager ;;
    let '(pet, manager) := ensured in
    match pet with
    | None => ret (Continue, manager)
    | Some (_, p) =>
        if negb (alive p) && is_action_choice choice then
          print (name p ++ " cannot perform actions (game over). Try another pet or quit.") ;;
          ret (Continue, manager)
        else dispatch choice pet manager
    end
  else dispatch choice None manager.

(** [while True], unrolled at most [fuel] times; [None] when the fuel
    runs out before the loop ends. *)
Fixpoint main_loop (fuel : nat) (manager : PetManager) (w : World)
  : option (outcome (PetManager * World)) :=
  match fuel with
  | O => None
  | S fuel' =>
      match iteration manager w with
      | Raised exc => Some (Raised exc)
      | Returned ((Break, manager'), w') => Some (Returned (manager', w'))
      | Returned ((Continue, manager'), w') => main_loop fuel' manager' w'
      end
  end.

(** [main]: the manager and the world when it returns.  [random.seed()]
    only decides which generator the world holds.  An iteration reads at
    least one line, so one more iteration than there are lines is fuel
    enough. *)
Definition main (w : World) : option (outcome (PetManager * World)) :=
  match (print "Welcome to the Virtual Pet Simulator." ;;
         create_pet PetManager_init) w with
  | Raised exc => Some (Raised exc)
  | Returned (manager, w') => main_loop (S (List.length (stdin w'))) manager w'
  end.

End Session.

(** ** Specification-side definitions for the session *)

(** The manager's index is usable: no pet and no index, or an index
    that is a position of the list. *)
Definition manager_ok (m : PetManager) : Prop :=
  match active_index m with
  | None => pets m = []
  | Some i => 0 <= i < Z.of_nat (List.length (pets m))
  end.

(** What holds of every pet that the menu has handled: levels in
    range, a name that [Pet.__init__] accepted, and a dead pet sits at
    the bound that killed it. *)
Definition pet_ok (p : Pet) : Prop :=
  levels_ok p /\ 0 <= age_hours p /\
  (alive p = false -> hunger p = MAX_LEVEL \/ happiness p = MIN_LEVEL).

Definition session_ok (m : PetManager) : Prop :=
  manager_ok m /\ Forall pet_ok (pets m).

(** The bar of a level, without floats: a fifth of the level, rounded
    down, in ["#"], the rest of 20 in ["-"]. *)
Definition level_bar (value : Z) : string :=
  ("[" ++ str_mul "#" (value / 5) ++ str_mul "-" (20 - value / 5) ++ "]")%string.

Definition bar_agrees (k : nat) : bool :=
  match bar (Z.of_nat k) 20 with
  | Returned s =>
      String.eqb s (level_bar (Z.of_nat k)) && Nat.eqb (String.length s) 22
  | Raised _ => false
  end.

Definition format_3d_fills (k : nat) : bool :=
  Nat.eqb (String.length (format_3d (Z.of_nat k))) 3.

(** How an iteration of the menu may change a pet: never its name, its
    age by at most 24 hours, and nothing at all once it is dead. *)
Definition pet_evolves (p p' : Pet) : Prop :=
  name p' = name p /\
  age_hours p <= age_hours p' <= age_hours p + 24 /\
  (alive p = false -> p' = p).

(** How the list of pets may change: at most [k] pets are added at
    the end, every pet stays at its position and evolves, and all pets
    but one stay as they are. *)
Definition manager_evolves_by (k : nat) (m m' : PetManager) : Prop :=
  (List.length (pets m) <= List.length (pets m') <= List.length (pets m) + k)%nat /\
  (forall pos p,
     nth_error (pets m) pos = Some p ->
     exists p', nth_error (pets m') pos = Some p' /\ pet_evolves p p') /\
  (exists changed, forall pos p,
     pos <> changed ->
     nth_error (pets m) pos = Some p -> nth_error (pets m') pos = Some p).

Definition manager_evolves : PetManager -> PetManager -> Prop :=
  manager_evolves_by 1.

(** A method of the four: it returns, with levels in range and the
    other attributes as they were. *)
Definition method_ok (method : Pet -> outcome Pet) : Prop :=
  forall q, exists q',
    method q = Returned q' /\ levels_ok q' /\
    alive q' = alive q /\ name q' = name q /\ age_hours q' = age_hours q.

(** What an iteration, or a part of one, does to the manager and to
    the input. *)
Definition step_to (k : nat) (m : PetManager) (w : World)
    (r : outcome (control * PetManager * World)) : Prop :=
  match r with
  | Returned ((_, m'), w') =>
      session_ok m' /\ manager_evolves_by k m m' /\
      (List.length (stdin w') <= List.length (stdin w))%nat
  | Raised exc => exc = "EOFError"%string
  end.

(** What the whole loop keeps of a pet: its position, its name, its
    age or more, and everything once it is dead. *)
Definition pets_kept (m m' : PetManager) : Prop :=
  forall pos p,
    nth_error (pets m) pos = Some p ->
    exists p',
      nth_error (pets m') pos = Some p' /\
      name p' = name p /\ age_hours p <= age_hours p' /\
      (alive p = false -> p' = p).

(** A sample of the built-ins, exact on the lines used in the
    examples: lines without surrounding blanks, and the numerals 1 to
    30. *)
Definition sample_int (s : string) : option Z :=
  match NilZero.int_of_string s with
  | Some d => Some (Z.of_int d)
  | None => None
  end.

#[export] Instance sample_builtins : Builtins :=
  {| str_strip := fun s => s; int_of_str := sample_int |}.

(** A session with a dead pet, which is the active one, and a new
    pet; the user presses 1 and then 0. *)
Definition sample_manager : PetManager :=
  mkManager [mkPet "Tom" 100 8 10 false; Pet_init "Rex"] (Some 0).

Definition sample_world : World :=
  mkWorld ["1"; "0"]%string [] starving_draws.

(** * Properties *)

(** ** clamp *)

Lemma clamp_level_range : forall v, level (clamp_level v).
Proof.
  intros v. unfold level, clamp_level, clamp, MIN_LEVEL, MAX_LEVEL. lia.
Qed.

Create HintDb pet.
#[local] Hint Resolve clamp_level_range : pet.

(** ** One hour of [tick] *)

Section Hour.

Variables (self : Pet) (d : Draws) (out : list string).

Lemma adjust_name : name (fst (adjust self d out)) = name self.
Proof.
  unfold adjust. destruct (random_event d); cbn;
    match goal with |- context [if ?b then _ else _] => destruct b end;
    reflexivity.
Qed.

Lemma adjust_alive : alive (fst (adjust self d out)) = alive self.
Proof.
  unfold adjust. destruct (random_event d); cbn;
    match goal with |- context [if ?b then _ else _] => destruct b end;
    reflexivity.
Qed.

Lemma adjust_age_hours :
  age_hours (fst (adjust self d out)) = age_hours self + 1.
Proof.
  unfold adjust. destruct (random_event d); cbn;
    match goal with |- context [if ?b then _ else _] => destruct b end;
    reflexivity.
Qed.

Lemma adjust_levels : levels_ok (fst (adjust self d out)).
Proof.
  unfold adjust, levels_ok. destruct (random_event d); cbn;
    match goal with |- context [if ?b then _ else _] => destruct b end;
    cbn; auto with pet.
Qed.

End Hour.

(** ** The loop of [tick] *)

(** The facts about the pet that [adjust] returns, from its equation. *)
Ltac adjust_facts Hadj :=
  match type of Hadj with
  | adjust ?p ?d ?o = (?s, ?o') =>
      let Hn := fresh "Hname" in
      let Hl := fresh "Halive" in
      let Hg := fresh "Hage" in
      let Hv := fresh "Hlev" in
      pose proof (adjust_name p d o) as Hn;
      pose proof (adjust_alive p d o) as Hl;
      pose proof (adjust_age_hours p d o) as Hg;
      pose proof (adjust_levels p d o) as Hv;
      rewrite Hadj in Hn, Hl, Hg, Hv; cbn [fst] in Hn, Hl, Hg, Hv
  end.

(** One iteration of the loop, split into its four ways out. *)
Ltac tick_step self g out :=
  cbn [tick_loop];
  let Ha := fresh "Ha" in
  destruct (alive self) eqn:Ha; cbn [negb];
  [ let s := fresh "s" in
    let o := fresh "o" in
    let Hadj := fresh "Hadj" in
    destruct (adjust self (next_draws g) out) as [s o] eqn:Hadj;
    adjust_facts Hadj;
    let Hh := fresh "Hh" in
    let Hs := fresh "Hs" in
    destruct (hunger s >=? MAX_LEVEL) eqn:Hh;
    [ | destruct (happiness s <=? MIN_LEVEL) eqn:Hs ]
  | ].

Lemma tick_loop_dead : forall n self g out,
  alive self = false -> tick_loop n self g out = Returned (self, g, out).
Proof.
  intros [|n] self g out H; cbn [tick_loop]; [reflexivity|].
  rewrite H. reflexivity.
Qed.

(** The loop always returns, and what it returns keeps the name, is in
    range when the pet it started from was, and is no younger. *)
Lemma tick_loop_returns : forall n self g out,
  exists self' g' out',
    tick_loop n self g out = Returned (self', g', out') /\
    name self' = name self /\
    (levels_ok self -> levels_ok self') /\
    age_hours self <= age_hours self' <= age_hours self + Z.of_nat n.
Proof.
  induction n as [|n IH]; intros self g out.
  - exists self, g, out. cbn [tick_loop].
    split; [reflexivity | split; [reflexivity | split; [tauto | lia]]].
  - tick_step self g out.
    + eexists _, _, _. split; [reflexivity|].
      cbn [set_alive name age_hours].
      split; [exact Hname | split; [intros _; exact Hlev | lia]].
    + eexists _, _, _. split; [reflexivity|].
      cbn [set_alive name age_hours].
      split; [exact Hname | split; [intros _; exact Hlev | lia]].
    + destruct (IH s (advance g) o) as (s' & g' & o' & E & Hn & Hl & Hg).
      exists s', g', o'. split; [exact E|].
      split; [congruence | split; [intros _; apply Hl, Hlev | lia]].
    + exists self, g, out.
      split; [reflexivity | split; [reflexivity | split; [tauto | lia]]].
Qed.

(** A pet that is alive after the loop was alive before it and has
    aged by every one of the [n] hours. *)
Lemma tick_loop_alive : forall n self g out self' g' out',
  tick_loop n self g out = Returned (self', g', out') ->
  alive self' = true ->
  alive self = true /\ age_hours self' = age_hours self + Z.of_nat n.
Proof.
  induction n as [|n IH]; intros self g out self' g' out' E Hal.
  - cbn in E. injection E as -> _ _. split; [exact Hal | lia].
  - revert E. tick_step self g out; intros E.
    + injection E as <- _ _. discriminate Hal.
    + injection E as <- _ _. discriminate Hal.
    + destruct (IH _ _ _ _ _ _ E Hal) as [_ Hg]. split; [reflexivity | lia].
    + injection E as <- _ _. congruence.
Qed.

(** A pet that the loop kills ends the loop at a bound: hunger at
    [MAX_LEVEL] or happiness at [MIN_LEVEL]. *)
Lemma tick_loop_killed : forall n self g out self' g' out',
  tick_loop n self g out = Returned (self', g', out') ->
  alive self = true -> alive self' = false ->
  hunger self' = MAX_LEVEL \/ happiness self' = MIN_LEVEL.
Proof.
  induction n as [|n IH]; intros self g out self' g' out' E Hal Hd.
  - cbn in E. injection E as -> _ _. congruence.
  - revert E. tick_step self g out; intros E; try discriminate Hal.
    + injection E as <- _ _. cbn. left.
      destruct Hlev as [[_ Hu] _]. apply Z.geb_le in Hh. lia.
    + injection E as <- _ _. cbn. right.
      destruct Hlev as [_ [Hlo _]]. apply Z.leb_le in Hs. lia.
    + apply (IH _ _ _ _ _ _ E); [congruence | exact Hd].
Qed.

(** Running [a + b] iterations is running [a] and then [b]: once the
    pet is dead the remaining iterations do nothing. *)
Lemma tick_loop_add : forall a b self g out,
  tick_loop (a + b) self g out =
  match tick_loop a self g out with
  | Returned (s, g', o) => tick_loop b s g' o
  | Raised exc => Raised exc
  end.
Proof.
  induction a as [|a IH]; intros b self g out.
  - reflexivity.
  - cbn [Nat.add]. tick_step self g out.
    + rewrite tick_loop_dead; reflexivity.
    + rewrite tick_loop_dead; reflexivity.
    + apply IH.
    + rewrite tick_loop_dead; [reflexivity | exact Ha].
Qed.

(** ** Calls *)

Lemma feed_levels : forall self self',
  feed self = Returned self' -> levels_ok self'.
Proof.
  intros self self' E. injection E as <-. split; cbn; auto with pet.
Qed.

Lemma play_levels : forall self self',
  play self = Returned self' -> levels_ok self'.
Proof.
  intros self self' E. injection E as <-. split; cbn; auto with pet.
Qed.

Lemma give_toy_levels : forall self self',
  give_toy self = Returned self' -> levels_ok self'.
Proof.
  intros self self' E. injection E as <-. split; cbn; auto with pet.
Qed.

Lemma give_medicine_levels : forall self self',
  give_medicine self = Returned self' -> levels_ok self'.
Proof.
  intros self self' E. injection E as <-. split; cbn; auto with pet.
Qed.

(** No call raises. *)
Lemma invoke_returns : forall c self g,
  exists self' g' out, invoke c self g = Returned (self', g', out).
Proof.
  intros [| | | |hours] self g; cbn;
    try (eexists _, _, _; reflexivity).
  unfold tick.
  destruct (tick_loop_returns (Z.to_nat hours) self g [])
    as (s & g' & o & E & _).
  exists s, g', o. exact E.
Qed.

(** Every call keeps the levels in range. *)
Lemma invoke_levels : forall c self g self' g' out,
  levels_ok self ->
  invoke c self g = Returned (self', g', out) ->
  levels_ok self'.
Proof.
  intros [| | | |hours] self g self' g' out Hok E; cbn in E.
  - injection E as <- _ _. eapply feed_levels; reflexivity.
  - injection E as <- _ _. eapply play_levels; reflexivity.
  - injection E as <- _ _. eapply give_toy_levels; reflexivity.
  - injection E as <- _ _. eapply give_medicine_levels; reflexivity.
  - unfold tick in E.
    destruct (tick_loop_returns (Z.to_nat hours) self g [])
      as (s & g1 & o & E1 & _ & Hl & _).
    rewrite E1 in E. injection E as <- _ _. apply Hl, Hok.
Qed.

Lemma Pet_init_levels : forall nm, levels_ok (Pet_init nm).
Proof.
  intros nm. unfold levels_ok, level, MIN_LEVEL, MAX_LEVEL. cbn. lia.
Qed.

Lemma reachable_levels : forall self, reachable self -> levels_ok self.
Proof.
  induction 1 as [nm | c self g self' g' out _ IH E].
  - apply Pet_init_levels.
  - eapply invoke_levels; eassumption.
Qed.

Lemma run_levels : forall cs self g,
  levels_ok self ->
  Forall levels_ok (run cs self g) /\ List.length (run cs self g) = List.length cs.
Proof.
  induction cs as [|c cs IH]; intros self g Hok; cbn [run].
  - split; [constructor | reflexivity].
  - destruct (invoke_returns c self g) as (s & g' & o & E). rewrite E.
    pose proof (invoke_levels _ _ _ _ _ _ Hok E) as Hs.
    destruct (IH s g' Hs) as [HF HL].
    split; [constructor; assumption | cbn [List.length]; congruence].
Qed.

(** The draws of the examples are draws the library can make. *)
Example starving_draws_in_range : forall i, draws_in_range (starving_draws i).
Proof.
  intros i. unfold draws_in_range. cbn. lia.
Qed.

Example got_sick_draws_in_range :
  draws_in_range (mkDraws 7 2 (Some (mkEvent "Got sick" 15 (-10)))).
Proof.
  unfold draws_in_range. cbn. repeat split; try lia. right. right. left.
  reflexivity.
Qed.

Example starved_tom_state : starved_tom = mkPet "Tom" 100 14 8 false.
Proof. reflexivity. Qed.

Example starved_tom_reachable : reachable starved_tom.
Proof.
  apply (reach_call (Tick 8) (Pet_init "Tom") starving_draws
           starved_tom (fun i => starving_draws (8 + i)%nat)
           ["Tom became too hungry. Game over."]%string).
  - apply reach_init.
  - reflexivity.
Qed.

(** ** The claims *)

(** C1, as stated, fails: [feed()] on a dead pet changes its levels.  The
    dead pet ["Tom"], left by [tick(8)] at hunger 100 and happiness 14, has
    hunger 85 and happiness 12 after [feed()]. *)
Lemma feed_dead_pet_changes_levels :
  alive starved_tom = false /\
  hunger starved_tom = 100 /\ happiness starved_tom = 14 /\
  feed starved_tom = Returned (mkPet "Tom" 85 12 8 false).
Proof. repeat split. Qed.

(** C1, amended: on a pet with [alive == False], [tick(hours)] returns
    without raising and leaves the pet, the generator and the output as
    they were; the four actions return without raising and leave [name],
    [age_hours] and [alive] as they were, but set hunger and happiness to
    the same clamped values as on a live pet. *)
Theorem dead_pet_calls : forall self hours g,
  alive self = false ->
  tick self hours g = Returned (self, g, []) /\
  feed self =
    Returned (mkPet (name self) (clamp_level (hunger self - 15))
                (clamp_level (happiness self - 2)) (age_hours self) false) /\
  play self =
    Returned (mkPet (name self) (clamp_level (hunger self + 6))
                (clamp_level (happiness self + 12)) (age_hours self) false) /\
  give_toy self =
    Returned (mkPet (name self) (clamp_level (hunger self + 2))
                (clamp_level (happiness self + 8)) (age_hours self) false) /\
  give_medicine self =
    Returned (mkPet (name self) (clamp_level (hunger self - 8))
                (clamp_level (happiness self + 3)) (age_hours self) false).
Proof.
  intros self hours g Hd. split.
  - unfold tick. apply tick_loop_dead, Hd.
  - unfold feed, play, give_toy, give_medicine,
      set_hunger, set_happiness; cbn.
    rewrite Hd. repeat split.
Qed.

Lemma dead_pet_calls_witness :
  alive starved_tom = false /\
  tick starved_tom 3 starving_draws = Returned (starved_tom, starving_draws, []) /\
  play starved_tom = Returned (mkPet "Tom" 100 26 8 false).
Proof.
  pose proof (dead_pet_calls starved_tom 3 starving_draws eq_refl)
    as (Ht & _ & Hp & _).
  split; [reflexivity | split; [exact Ht | exact Hp]].
Defined.

(** C2: every reachable pet has hunger and happiness in [0, 100], and
    so has the pet after each call of any sequence of [feed], [play],
    [give_toy], [give_medicine] and [tick] calls made on it, none of which
    raises. *)
Theorem levels_always_in_range : forall self,
  reachable self ->
  levels_ok self /\
  forall cs g,
    Forall levels_ok (run cs self g) /\ List.length (run cs self g) = List.length cs.
Proof.
  intros self Hr. pose proof (reachable_levels self Hr) as Hok.
  split; [exact Hok|]. intros cs g. apply run_levels, Hok.
Qed.

Lemma levels_always_in_range_witness :
  levels_ok starved_tom /\
  Forall levels_ok (run [Feed; Tick 2; Play; GiveToy; GiveMedicine]
                      starved_tom starving_draws).
Proof.
  pose proof (levels_always_in_range starved_tom starved_tom_reachable)
    as [Hok Hrun].
  split; [exact Hok|].
  exact (proj1 (Hrun [Feed; Tick 2; Play; GiveToy; GiveMedicine] starving_draws)).
Defined.

(** C3, as stated, fails: [tick(0)] and [tick(-3)] on a new pet return
    the pet as it was and raise nothing. *)
Lemma tick_nonpositive_does_not_raise :
  tick (Pet_init "Tom") 0 starving_draws =
    Returned (Pet_init "Tom", starving_draws, []) /\
  tick (Pet_init "Tom") (-3) starving_draws =
    Returned (Pet_init "Tom", starving_draws, []) /\
  forall exc, tick (Pet_init "Tom") 0 starving_draws <> Raised exc.
Proof.
  split; [reflexivity | split; [reflexivity | intros exc; discriminate]].
Qed.

(** C3, amended: [tick(hours)] with [hours < 1] raises nothing; it
    returns with the pet unchanged, draws nothing from the generator and
    prints nothing. *)
Theorem tick_nonpositive_is_noop : forall self hours g,
  hours < 1 -> tick self hours g = Returned (self, g, []).
Proof.
  intros self hours g H. unfold tick.
  replace (Z.to_nat hours) with O by lia. reflexivity.
Qed.

Lemma tick_nonpositive_is_noop_witness :
  tick (Pet_init "Tom") (-3) starving_draws =
    Returned (Pet_init "Tom", starving_draws, []).
Proof.
  apply (tick_nonpositive_is_noop (Pet_init "Tom") (-3) starving_draws).
  lia.
Defined.

(** *** Age and the terminal hour *)

Lemma pet_after_loop : forall k self g s g' o,
  tick_loop k self g [] = Returned (s, g', o) ->
  pet_after (Z.of_nat k) self g = s.
Proof.
  intros k self g s g' o E. unfold pet_after, tick.
  rewrite Nat2Z.id, E. reflexivity.
Qed.

(** One more hour on a live pet ages it by one, whatever happens. *)
Lemma tick_loop_one_age : forall self g out s g' o,
  alive self = true ->
  tick_loop 1 self g out = Returned (s, g', o) ->
  age_hours s = age_hours self + 1.
Proof.
  intros self g out s g' o Hal. tick_step self g out; intros E;
    try discriminate Hal; injection E as <- _ _; exact Hage.
Qed.

(** The pet that is dead after [h] hours and alive after fewer has aged
    by [h]. *)
Lemma terminal_hour_age : forall self g h,
  terminal_hour self g h ->
  age_hours (pet_after (Z.of_nat h) self g) = age_hours self + Z.of_nat h.
Proof.
  intros self g [|h] [Hd Hbefore].
  - unfold pet_after, tick. cbn. lia.
  - destruct (tick_loop_returns h self g []) as (s1 & g1 & o1 & E1 & _).
    pose proof (Hbefore h (Nat.lt_succ_diag_r h)) as Hal.
    rewrite (pet_after_loop _ _ _ _ _ _ E1) in Hal.
    destruct (tick_loop_alive _ _ _ _ _ _ _ E1 Hal) as [_ Hage1].
    destruct (tick_loop_returns 1 s1 g1 o1) as (s2 & g2 & o2 & E2 & _).
    assert (E : tick_loop (S h) self g [] = Returned (s2, g2, o2)).
    { replace (S h) with (h + 1)%nat by lia.
      rewrite tick_loop_add, E1. exact E2. }
    rewrite (pet_after_loop _ _ _ _ _ _ E).
    rewrite (tick_loop_one_age _ _ _ _ _ _ Hal E2). lia.
Qed.

(** Once the terminal hour is past, more hours change nothing. *)
Lemma pet_after_terminal_hour : forall self g h n,
  terminal_hour self g h -> (h <= n)%nat ->
  pet_after (Z.of_nat n) self g = pet_after (Z.of_nat h) self g.
Proof.
  intros self g h n [Hd _] Hle.
  destruct (tick_loop_returns h self g []) as (s1 & g1 & o1 & E1 & _).
  rewrite (pet_after_loop _ _ _ _ _ _ E1) in Hd |- *.
  apply (pet_after_loop n self g s1 g1 o1).
  replace n with (h + (n - h))%nat by lia.
  rewrite tick_loop_add, E1. apply tick_loop_dead, Hd.
Qed.

(** A pet that is alive after [n] hours was alive after any fewer. *)
Lemma alive_after_earlier : forall self g k n,
  (k <= n)%nat ->
  alive (pet_after (Z.of_nat n) self g) = true ->
  alive (pet_after (Z.of_nat k) self g) = true.
Proof.
  intros self g k n Hle Hal.
  destruct (tick_loop_returns k self g []) as (s1 & g1 & o1 & E1 & _).
  destruct (tick_loop_returns (n - k) s1 g1 o1) as (s2 & g2 & o2 & E2 & _).
  assert (E : tick_loop n self g [] = Returned (s2, g2, o2)).
  { replace n with (k + (n - k))%nat by lia.
    rewrite tick_loop_add, E1. exact E2. }
  rewrite (pet_after_loop _ _ _ _ _ _ E) in Hal.
  rewrite (pet_after_loop _ _ _ _ _ _ E1).
  apply (tick_loop_alive _ _ _ _ _ _ _ E2 Hal).
Qed.

(** A pet that is dead after [n] hours has a terminal hour, at most [n]. *)
Lemma dead_after_terminal_hour : forall self g n,
  alive (pet_after (Z.of_nat n) self g) = false ->
  exists h, (h <= n)%nat /\ terminal_hour self g h.
Proof.
  intros self g. induction n as [|n IH]; intros Hd.
  - exists O. split; [lia|]. split; [exact Hd | intros k Hk; lia].
  - destruct (alive (pet_after (Z.of_nat n) self g)) eqn:Hn.
    + exists (S n). split; [lia|]. split; [exact Hd|].
      intros k Hk. apply (alive_after_earlier self g k n); [lia | exact Hn].
    + destruct (IH eq_refl) as (h & Hle & Hh). exists h. split; [lia | exact Hh].
Qed.

(** C4: for [n >= 1], [tick(n)] returns, and it has increased [age_hours]
    by [min(n, h)] where [h] counts the hours processed until the terminal
    transition, the terminal hour included ([h = 0] for a pet that is
    already dead); by exactly [n] when the pet is alive afterwards; and a
    pet that is dead afterwards has such an [h], at most [n]. *)
Theorem tick_advances_age : forall self n g,
  0 < n ->
  exists self' g' out,
    tick self n g = Returned (self', g', out) /\
    (forall h, terminal_hour self g h ->
       age_hours self' = age_hours self + Z.min n (Z.of_nat h)) /\
    (alive self' = true -> age_hours self' = age_hours self + n) /\
    (alive self' = false ->
       exists h, Z.of_nat h <= n /\ terminal_hour self g h).
Proof.
  intros self n g Hn.
  destruct (tick_loop_returns (Z.to_nat n) self g []) as (s & g' & o & E & _).
  exists s, g', o. split; [exact E|].
  pose proof (pet_after_loop _ _ _ _ _ _ E) as Hs.
  rewrite Z2Nat.id in Hs by lia.
  split; [|split].
  - intros h Hh. destruct (Nat.le_gt_cases h (Z.to_nat n)) as [Hle | Hgt].
    + pose proof (pet_after_terminal_hour self g h (Z.to_nat n) Hh Hle) as Heq.
      rewrite Z2Nat.id in Heq by lia. rewrite Hs in Heq. rewrite Heq.
      rewrite (terminal_hour_age self g h Hh). lia.
    + destruct Hh as [_ Hbefore]. pose proof (Hbefore _ Hgt) as Hal.
      rewrite Z2Nat.id in Hal by lia. rewrite Hs in Hal.
      destruct (tick_loop_alive _ _ _ _ _ _ _ E Hal) as [_ Hage]. lia.
  - intros Hal. destruct (tick_loop_alive _ _ _ _ _ _ _ E Hal) as [_ Hage]. lia.
  - intros Hd. rewrite <- Hs in Hd.
    rewrite <- (Z2Nat.id n) in Hd by lia.
    destruct (dead_after_terminal_hour self g _ Hd) as (h & Hle & Hh).
    exists h. split; [lia | exact Hh].
Qed.

Lemma starved_tom_terminal_hour :
  terminal_hour (Pet_init "Tom") starving_draws 8.
Proof.
  split; [reflexivity|].
  intros k Hk. do 8 (destruct k as [|k]; [reflexivity|]). lia.
Qed.

Lemma tick_advances_age_witness :
  exists self' g' out,
    tick (Pet_init "Tom") 10 starving_draws = Returned (self', g', out) /\
    age_hours self' = age_hours (Pet_init "Tom") + Z.min 10 (Z.of_nat 8).
Proof.
  destruct (tick_advances_age (Pet_init "Tom") 10 starving_draws)
    as (s & g' & o & E & Hterm & _); [lia|].
  exists s, g', o. split; [exact E|].
  apply Hterm, starved_tom_terminal_hour.
Defined.

(** *** The game-over checks *)

(** The lines already printed only get longer: the loop started with
    [out] printed returns the same pet and generator as started with
    nothing printed, and [out] followed by its own lines. *)
Lemma adjust_out : forall self d out,
  adjust self d out =
  (fst (adjust self d []), out ++ snd (adjust self d [])).
Proof.
  intros self d out. unfold adjust.
  destruct (random_event d); cbn [fst snd app].
  - reflexivity.
  - rewrite app_nil_r. reflexivity.
Qed.

Lemma tick_loop_out : forall n self g out s g' o,
  tick_loop n self g [] = Returned (s, g', o) ->
  tick_loop n self g out = Returned (s, g', out ++ o).
Proof.
  induction n as [|n IH]; intros self g out s g' o.
  - cbn. intros E. injection E as <- <- <-. rewrite app_nil_r. reflexivity.
  - cbn [tick_loop]. destruct (alive self); cbn [negb].
    + rewrite (adjust_out self (next_draws g) out).
      destruct (adjust self (next_draws g) []) as [s1 o1]. cbn [fst snd app].
      destruct (hunger s1 >=? MAX_LEVEL);
        [| destruct (happiness s1 <=? MIN_LEVEL)]; intros E.
      * injection E as <- <- <-. rewrite app_assoc. reflexivity.
      * injection E as <- <- <-. rewrite app_assoc. reflexivity.
      * destruct (tick_loop_returns n s1 (advance g) [])
          as (s2 & g2 & o2 & E2 & _).
        rewrite (IH _ _ o1 _ _ _ E2) in E. injection E as <- <- <-.
        rewrite (IH _ _ (out ++ o1) _ _ _ E2), app_assoc. reflexivity.
    + intros E. injection E as <- <- <-. rewrite app_nil_r. reflexivity.
Qed.

(** C5: in an hour of [tick] on a live pet, with [s] the pet after the
    hour's adjustments: if hunger is 100 the pet is marked dead, the
    too-hungry line is printed and [tick] returns at once, whatever hours
    remain and whatever happiness is; otherwise, if happiness is 0 the pet
    is marked dead, the too-sad line is printed and [tick] returns at
    once; otherwise the loop goes on with the remaining hours. *)
Theorem terminal_check : forall self hours g,
  alive self = true -> 1 <= hours ->
  let s := fst (adjust self (next_draws g) []) in
  let out := snd (adjust self (next_draws g) []) in
  (hunger s = 100 ->
     tick self hours g =
     Returned (set_alive s false, advance g, out ++ [hungry_message s])) /\
  (hunger s <> 100 -> happiness s = 0 ->
     tick self hours g =
     Returned (set_alive s false, advance g, out ++ [sad_message s])) /\
  (hunger s <> 100 -> happiness s <> 0 ->
     tick self hours g = tick_loop (Z.to_nat (hours - 1)) s (advance g) out).
Proof.
  intros self hours g Hal Hh s out. unfold tick.
  replace (Z.to_nat hours) with (S (Z.to_nat (hours - 1))) by lia.
  cbn [tick_loop]. rewrite Hal. cbn [negb].
  pose proof (adjust_levels self (next_draws g) []) as [[Hh0 Hh1] [Ha0 Ha1]].
  fold s in Hh0, Hh1, Ha0, Ha1.
  rewrite (surjective_pairing (adjust self (next_draws g) [])).
  fold s out. unfold MIN_LEVEL, MAX_LEVEL in *.
  split; [|split].
  - intros E. rewrite E. reflexivity.
  - intros Hne E.
    destruct (hunger s >=? 100) eqn:C1; [apply Z.geb_le in C1; lia|].
    rewrite E. reflexivity.
  - intros Hne Hne'.
    destruct (hunger s >=? 100) eqn:C1; [apply Z.geb_le in C1; lia|].
    destruct (happiness s <=? 0) eqn:C2; [apply Z.leb_le in C2; lia|].
    reflexivity.
Qed.

(** A pet at hunger 95 and happiness 3 with draws 7 and 2: after the
    adjustments hunger is 100 and happiness, 1 before the too-hungry
    penalty, is 0; the hunger check wins. *)
Lemma terminal_check_witness :
  tick (mkPet "Tom" 95 3 4 true) 5 starving_draws =
  Returned (mkPet "Tom" 100 0 5 false, advance starving_draws,
            ["Tom became too hungry. Game over."]%string).
Proof.
  apply (terminal_check (mkPet "Tom" 95 3 4 true) 5 starving_draws).
  - reflexivity.
  - lia.
  - reflexivity.
Defined.

(** *** One hour, step by step *)

(** C6: with the draws 5 for the hunger increase and 3 for the happiness
    decrease and no event, a live pet at hunger 50 and happiness 50 is at
    hunger 55 and happiness 47 and alive after [tick(1)]. *)
Theorem tick_fixed_draws : forall self g,
  alive self = true -> hunger self = 50 -> happiness self = 50 ->
  next_draws g = mkDraws 5 3 None ->
  exists self',
    tick self 1 g = Returned (self', advance g, []) /\
    hunger self' = 55 /\ happiness self' = 47 /\ alive self' = true.
Proof.
  intros [nm hu ha ag al] g Hal Hhu Hha Hd. cbn in Hal, Hhu, Hha. subst.
  unfold tick. change (Z.to_nat 1) with 1%nat.
  cbn [tick_loop alive negb]. rewrite Hd. eexists. split; [reflexivity|]. repeat split.
Qed.

Lemma tick_fixed_draws_witness :
  exists self',
    tick (Pet_init "Tom") 1 (constant_draws (mkDraws 5 3 None)) =
      Returned (self', advance (constant_draws (mkDraws 5 3 None)), []) /\
    hunger self' = 55 /\ happiness self' = 47 /\ alive self' = true.
Proof.
  apply (tick_fixed_draws (Pet_init "Tom") (constant_draws (mkDraws 5 3 None)));
    reflexivity.
Defined.

Lemma adjust_by_steps : forall self d out,
  alive self = true ->
  let s := fst (adjust self d out) in
  hour_by_steps self d =
  set_alive s (negb ((hunger s >=? MAX_LEVEL) || (happiness s <=? MIN_LEVEL))).
Proof.
  intros self d out Hal s.
  pose proof (adjust_levels self d out) as [[Hh0 Hh1] [Ha0 Ha1]].
  fold s in Hh0, Hh1, Ha0, Ha1.
  assert (Eh : (hunger s >=? MAX_LEVEL) = (hunger s =? 100)).
  { unfold MIN_LEVEL, MAX_LEVEL in *. rewrite Z.geb_leb.
    destruct (Z.leb_spec 100 (hunger s)), (Z.eqb_spec (hunger s) 100);
      try reflexivity; lia. }
  assert (Ea : (happiness s <=? MIN_LEVEL) = (happiness s =? 0)).
  { unfold MIN_LEVEL, MAX_LEVEL in *.
    destruct (Z.leb_spec (happiness s) 0), (Z.eqb_spec (happiness s) 0);
      try reflexivity; lia. }
  rewrite Eh, Ea. subst s. clear. unfold hour_by_steps, adjust.
  destruct (random_event d) as [evt|]; cbn [fst hunger happiness name
    age_hours alive set_hunger set_happiness set_age_hours set_alive];
    rewrite Z.gtb_ltb;
    match goal with |- context [80 <? ?h] => destruct (80 <? h) end;
    reflexivity.
Qed.

(** C7: an hour of [tick] on a live pet leaves the pet that the steps
    taken in the specification's order leave: the event's deltas come
    before the [hunger > 80] test, which is made on the hunger the event
    left, and the clamped penalty of 5 comes before the game-over checks,
    which see the happiness the penalty left.  This holds for the first
    hour of any [tick(hours)], the remaining hours starting from that
    pet. *)
Theorem hour_order : forall self hours g,
  alive self = true -> 1 <= hours ->
  (exists out,
     tick self 1 g =
     Returned (hour_by_steps self (next_draws g), advance g, out)) /\
  pet_after hours self g =
  pet_after (hours - 1) (hour_by_steps self (next_draws g)) (advance g).
Proof.
  intros self hours g Hal Hh.
  pose proof (adjust_by_steps self (next_draws g) [] Hal) as Hs.
  cbv zeta in Hs. unfold pet_after, tick.
  replace (Z.to_nat hours) with (S (Z.to_nat (hours - 1))) by lia.
  change (Z.to_nat 1) with 1%nat. cbn [tick_loop]. rewrite Hal.
  cbn [negb]. rewrite Hs.
  pose proof (adjust_alive self (next_draws g) []) as Hal'.
  rewrite Hal in Hal'.
  destruct (adjust self (next_draws g) []) as [s o]. cbn [fst] in *.
  destruct (hunger s >=? MAX_LEVEL);
    [| destruct (happiness s <=? MIN_LEVEL)]; cbn [orb negb].
  - split; [eexists; reflexivity|].
    rewrite tick_loop_dead; reflexivity.
  - split; [eexists; reflexivity|].
    rewrite tick_loop_dead; reflexivity.
  - assert (Es : set_alive s true = s).
    { destruct s; cbn in *; subst; reflexivity. }
    rewrite Es. split; [eexists; reflexivity|].
    destruct (tick_loop_returns (Z.to_nat (hours - 1)) s (advance g) [])
      as (s2 & g2 & o2 & E2 & _).
    rewrite (tick_loop_out _ _ _ o _ _ _ E2), E2. reflexivity.
Qed.

(** ["Got sick"] raises hunger from 77 to 92, so the penalty applies
    though hunger was below 80 before the event; happiness goes 50, 48,
    38, 33. *)
Lemma hour_order_witness :
  exists out,
    tick (mkPet "Tom" 70 50 0 true) 1
      (constant_draws (mkDraws 7 2 (Some (mkEvent "Got sick" 15 (-10))))) =
    Returned (mkPet "Tom" 92 33 1 true,
              advance (constant_draws
                         (mkDraws 7 2 (Some (mkEvent "Got sick" 15 (-10))))),
              out).
Proof.
  apply (hour_order (mkPet "Tom" 70 50 0 true) 1
           (constant_draws (mkDraws 7 2 (Some (mkEvent "Got sick" 15 (-10)))))).
  - reflexivity.
  - lia.
Defined.

(** *** The actions *)

(** C8: [feed()] returns with hunger [clamp(hunger - 15)] and happiness
    [clamp(happiness - 2)]; on a pet at hunger 10 whose happiness is at
    least 2 (and at most [MAX_LEVEL], as a level is) hunger is 0 afterwards
    and happiness is 2 less. *)
Theorem feed_effect : forall self,
  (exists self',
     feed self = Returned self' /\
     hunger self' = clamp_level (hunger self - 15) /\
     happiness self' = clamp_level (happiness self - 2)) /\
  (hunger self = 10 -> 2 <= happiness self <= MAX_LEVEL ->
   exists self',
     feed self = Returned self' /\
     hunger self' = 0 /\ happiness self' = happiness self - 2).
Proof.
  intros self. split.
  - eexists. split; [reflexivity|]. split; reflexivity.
  - intros Hh Ha. eexists. split; [reflexivity|].
    cbn [set_hunger set_happiness hunger happiness]. rewrite Hh.
    unfold clamp_level, clamp, MIN_LEVEL, MAX_LEVEL in *. lia.
Qed.

(** Five doses of medicine bring a new pet to hunger 10 and happiness
    65; [feed()] then leaves hunger 0 and happiness 63. *)
Lemma feed_effect_witness :
  exists self',
    feed (mkPet "Tom" 10 65 0 true) = Returned self' /\
    hunger self' = 0 /\ happiness self' = 65 - 2.
Proof.
  apply (proj2 (feed_effect (mkPet "Tom" 10 65 0 true))).
  - reflexivity.
  - unfold MAX_LEVEL. cbn. lia.
Defined.

Lemma action_frame : forall c self g self' g' out,
  (forall hours, c <> Tick hours) ->
  invoke c self g = Returned (self', g', out) ->
  same_frame self self'.
Proof.
  intros [| | | |hours] self g self' g' out Hc E;
    [ injection E as <- _ _; repeat split .. | ].
  destruct (Hc hours eq_refl).
Qed.

Lemma run_dead : forall cs self g,
  alive self = false ->
  Forall (fun p => alive p = false) (run cs self g).
Proof.
  induction cs as [|c cs IH]; intros self g Hd; cbn [run].
  - constructor.
  - destruct (invoke c self g) as [[[s g'] o]|exc] eqn:E; [|constructor].
    assert (Hs : alive s = false).
    { destruct c as [| | | |hours]; cbn in E;
        try (injection E as <- _ _; exact Hd).
      unfold tick in E. rewrite (tick_loop_dead _ _ _ _ Hd) in E.
      injection E as <- _ _. exact Hd. }
    constructor; [exact Hs | apply IH, Hs].
Qed.

(** C9: every call returns; a call on a dead pet leaves it dead, and so
    does any sequence of calls; a call that finds the pet alive and
    leaves it dead is a [tick], and it leaves hunger at [MAX_LEVEL] or
    happiness at [MIN_LEVEL]. *)
Theorem game_over_absorbing : forall c self g,
  exists self' g' out,
    invoke c self g = Returned (self', g', out) /\
    (alive self = false ->
       alive self' = false /\
       forall cs g0, Forall (fun p => alive p = false) (run cs self g0)) /\
    (alive self = true -> alive self' = false ->
       (exists hours, c = Tick hours) /\
       (hunger self' = MAX_LEVEL \/ happiness self' = MIN_LEVEL)).
Proof.
  intros c self g.
  destruct (invoke_returns c self g) as (s & g' & o & E).
  exists s, g', o. split; [exact E|]. split.
  - intros Hd. split; [| intros cs g0; apply run_dead, Hd].
    pose proof (run_dead [c] self g Hd) as HF. cbn [run] in HF.
    rewrite E in HF. inversion HF; assumption.
  - intros Hal Hd. destruct c as [| | | |hours].
    1-4: apply action_frame in E as (_ & _ & Hsame);
      [congruence | discriminate].
    split; [exists hours; reflexivity|].
    eapply tick_loop_killed; eassumption.
Qed.

(** C10: each of [feed()], [play()], [give_toy()] and [give_medicine()]
    returns, on a live pet as on a dead one, with [name], [age_hours] and
    [alive] as they were. *)
Theorem actions_frame : forall self,
  (exists self', feed self = Returned self' /\ same_frame self self') /\
  (exists self', play self = Returned self' /\ same_frame self self') /\
  (exists self', give_toy self = Returned self' /\ same_frame self self') /\
  (exists self', give_medicine self = Returned self' /\ same_frame self self').
Proof.
  intros self.
  repeat split; eexists; (split; [reflexivity | repeat split]).
Qed.

(** * Further properties *)

(** ** clamp with arbitrary bounds *)

(** X1: with [low <= high], [clamp(value, low, high)] lies in
    [[low, high]], leaves a value of that interval as it is, is the bound
    on the side where the value lies outside, and follows the order of its
    first argument. *)
Theorem clamp_bounds : forall value low high,
  low <= high ->
  low <= clamp value low high <= high /\
  (low <= value <= high -> clamp value low high = value) /\
  (value <= low -> clamp value low high = low) /\
  (high <= value -> clamp value low high = high) /\
  (forall value', value <= value' ->
     clamp value low high <= clamp value' low high).
Proof.
  intros value low high H. unfold clamp.
  split; [lia|]. split; [lia|]. split; [lia|]. split; [lia|].
  intros value' Hle. lia.
Qed.

Lemma clamp_bounds_witness :
  3 <= clamp 12 3 7 <= 7 /\ clamp 5 3 7 = 5 /\ clamp 1 3 7 = 3.
Proof.
  pose proof (clamp_bounds 12 3 7) as H12.
  pose proof (clamp_bounds 5 3 7) as H5.
  pose proof (clamp_bounds 1 3 7) as H1.
  split; [apply H12; lia|].
  split; [apply H5; lia | apply H1; lia].
Defined.

(** ** tick: composition, draws and neglect *)

Lemma tick_add : forall self a b g,
  0 <= a -> 0 <= b ->
  tick self (a + b) g =
  match tick self a g with
  | Returned (s, g', o) =>
      match tick s b g' with
      | Returned (s', g'', o') => Returned (s', g'', o ++ o')
      | Raised exc => Raised exc
      end
  | Raised exc => Raised exc
  end.
Proof.
  intros self a b g Ha Hb. unfold tick.
  rewrite Z2Nat.inj_add by assumption. rewrite tick_loop_add.
  destruct (tick_loop_returns (Z.to_nat a) self g []) as (s & g' & o & E & _).
  rewrite E.
  destruct (tick_loop_returns (Z.to_nat b) s g' []) as (s' & g'' & o' & E' & _).
  rewrite E'. apply tick_loop_out, E'.
Qed.

(** X2: [tick(a)] followed by [tick(b)] is [tick(a + b)], for
    [a, b >= 0]: the same pet, the same generator state and the same lines
    printed. *)
Theorem tick_compose : forall self a b g,
  0 <= a -> 0 <= b ->
  tick self (a + b) g =
  match tick self a g with
  | Returned (s, g', o) =>
      match tick s b g' with
      | Returned (s', g'', o') => Returned (s', g'', o ++ o')
      | Raised exc => Raised exc
      end
  | Raised exc => Raised exc
  end.
Proof.
  exact tick_add.
Qed.

Lemma tick_compose_witness :
  tick (Pet_init "Tom") (5 + 6) starving_draws =
  Returned (starved_tom, Nat.iter 8 advance starving_draws,
            ["Tom became too hungry. Game over."]%string).
Proof.
  rewrite (tick_compose (Pet_init "Tom") 5 6 starving_draws); [|lia|lia].
  reflexivity.
Defined.

Lemma tick_loop_draws : forall n self g out,
  exists self' out' k,
    tick_loop n self g out = Returned (self', Nat.iter k advance g, out') /\
    age_hours self' = age_hours self + Z.of_nat k /\ (k <= n)%nat.
Proof.
  induction n as [|n IH]; intros self g out.
  - exists self, out, O. cbn. repeat split; lia.
  - tick_step self g out.
    + eexists _, _, 1%nat. split; [reflexivity|]. cbn [set_alive age_hours].
      split; lia.
    + eexists _, _, 1%nat. split; [reflexivity|]. cbn [set_alive age_hours].
      split; lia.
    + destruct (IH s (advance g) o) as (s' & o' & k & E & Hk & Hle).
      exists s', o', (S k). rewrite Nat.iter_succ_r.
      split; [exact E|]. split; lia.
    + exists self, out, O. cbn. repeat split; lia.
Qed.

(** X3: [tick(hours)] returns having made the draws of exactly as many
    hours as it has added to [age_hours], at most [max(hours, 0)], and
    with the pet's name as it was. *)
Theorem tick_draws_per_hour : forall self hours g,
  exists self' out k,
    tick self hours g = Returned (self', Nat.iter k advance g, out) /\
    age_hours self' = age_hours self + Z.of_nat k /\
    Z.of_nat k <= Z.max 0 hours /\
    name self' = name self.
Proof.
  intros self hours g. unfold tick.
  destruct (tick_loop_draws (Z.to_nat hours) self g [])
    as (s & o & k & E & Hage & Hle).
  exists s, o, k. split; [exact E|]. split; [exact Hage|]. split; [lia|].
  destruct (tick_loop_returns (Z.to_nat hours) self g [])
    as (s1 & g1 & o1 & E1 & Hn & _).
  rewrite E in E1. injection E1 as <- _ _. exact Hn.
Qed.

Lemma adjust_hunger_no_event : forall self d out,
  random_event d = None ->
  hunger (fst (adjust self d out)) = clamp_level (hunger self + randint_hunger d).
Proof.
  intros self d out Hd. unfold adjust. rewrite Hd.
  cbn [set_age_hours set_hunger set_happiness hunger fst].
  match goal with |- context [if ?b then _ else _] => destruct b end;
    reflexivity.
Qed.

(** A pet that is alive after [n] hours without an event has gained at
    least 3 of hunger in each of them. *)
Lemma tick_loop_hunger_grows : forall n self g out self' g' out',
  0 <= hunger self ->
  (forall i, (i < n)%nat ->
     random_event (g i) = None /\ 3 <= randint_hunger (g i)) ->
  tick_loop n self g out = Returned (self', g', out') ->
  alive self' = true ->
  hunger self + 3 * Z.of_nat n <= hunger self' /\
  (n <> O -> hunger self' < MAX_LEVEL).
Proof.
  induction n as [|n IH]; intros self g out self' g' out' H0 Hg E Hal.
  - cbn in E. injection E as <- _ _. split; [lia | congruence].
  - revert E. tick_step self g out; intros E.
    + injection E as <- _ _. discriminate Hal.
    + injection E as <- _ _. discriminate Hal.
    + destruct (Hg O (Nat.lt_0_succ n)) as [Hev Hr].
      pose proof (adjust_hunger_no_event self (next_draws g) out Hev) as Hhun.
      rewrite Hadj in Hhun. cbn [fst] in Hhun.
      assert (Hlt : hunger s < MAX_LEVEL).
      { destruct (Z.geb_spec (hunger s) MAX_LEVEL); [discriminate Hh | lia]. }
      assert (Hstep : hunger self + 3 <= hunger s).
      { rewrite Hhun in Hlt |- *. unfold next_draws in *.
        unfold clamp_level, clamp, MIN_LEVEL, MAX_LEVEL in *. lia. }
      destruct (IH s (advance g) o self' g' out') as [Hsum Hn];
        [lia | intros i Hi; apply (Hg (S i)); lia | exact E | exact Hal |].
      split; [lia|]. intros _. destruct n as [|n'].
      * cbn in E. injection E as <- _ _. exact Hlt.
      * apply Hn. discriminate.
    + injection E as <- _ _. congruence.
Qed.

(** X4: neglect starves.  When the generator draws no event and a hunger
    increase of at least 3 in each of the next [n] hours, a pet whose
    hunger is not negative and reaches 100 at 3 a hour within them is dead
    after [tick(n)]: a new pet after 17 hours, any pet after 34. *)
Theorem neglect_starves : forall self n g,
  0 <= hunger self -> 0 < n ->
  MAX_LEVEL <= hunger self + 3 * n ->
  (forall i, (i < Z.to_nat n)%nat ->
     random_event (g i) = None /\ 3 <= randint_hunger (g i)) ->
  alive (pet_after n self g) = false.
Proof.
  intros self n g H0 Hn Hsum Hg. unfold pet_after, tick.
  destruct (tick_loop_returns (Z.to_nat n) self g []) as (s & g' & o & E & _).
  rewrite E. destruct (alive s) eqn:Hal; [|reflexivity].
  destruct (tick_loop_hunger_grows _ _ _ _ _ _ _ H0 Hg E Hal) as [Hle Hlt].
  assert (Hz : Z.to_nat n <> O) by lia. specialize (Hlt Hz). lia.
Qed.

Lemma neglect_starves_witness :
  alive (pet_after 17 (Pet_init "Tom") starving_draws) = false.
Proof.
  apply (neglect_starves (Pet_init "Tom") 17 starving_draws).
  - cbn. lia.
  - lia.
  - unfold MAX_LEVEL. cbn. lia.
  - intros i _. cbn. split; [reflexivity | lia].
Defined.

(** ** bar and status_string on levels *)

Lemma bar_agrees_on_levels : forallb bar_agrees (seq 0 101) = true.
Proof. vm_compute. reflexivity. Qed.

Lemma format_3d_fills_on_levels : forallb format_3d_fills (seq 0 101) = true.
Proof. vm_compute. reflexivity. Qed.

Lemma level_as_nat : forall value,
  level value -> exists k, value = Z.of_nat k /\ In k (seq 0 101).
Proof.
  intros value [H0 H1]. unfold MIN_LEVEL, MAX_LEVEL in *.
  exists (Z.to_nat value). split; [lia|]. apply in_seq. lia.
Qed.

Lemma bar_level : forall value,
  level value -> bar value 20 = Returned (level_bar value).
Proof.
  intros value Hv. destruct (level_as_nat value Hv) as (k & -> & Hk).
  pose proof (proj1 (forallb_forall _ _) bar_agrees_on_levels k Hk) as H.
  unfold bar_agrees in H. destruct (bar (Z.of_nat k) 20) as [s|exc];
    [|discriminate H].
  apply andb_true_iff in H as [Hs _].
  apply String.eqb_eq in Hs. subst s. reflexivity.
Qed.

Lemma status_string_returns : forall self,
  levels_ok self -> exists s, status_string self = Returned s.
Proof.
  intros self [Hh Ha]. unfold status_string.
  rewrite (bar_level _ Hh), (bar_level _ Ha). eexists. reflexivity.
Qed.

(** X5: for a level, that is an int from 0 to 100, [bar(value)] raises
    nothing and is 22 characters: ["["], one ["#"] for every 5 full points
    of the level, ["-"] up to 20, ["]"].  The float product never falls
    short of the exact [value * 20 / 100]. *)
Theorem bar_of_level : forall value,
  level value ->
  bar value 20 = Returned (level_bar value) /\
  String.length (level_bar value) = 22%nat.
Proof.
  intros value Hv. destruct (level_as_nat value Hv) as (k & -> & Hk).
  pose proof (proj1 (forallb_forall _ _) bar_agrees_on_levels k Hk) as H.
  unfold bar_agrees in H. destruct (bar (Z.of_nat k) 20) as [s|exc];
    [|discriminate H].
  apply andb_true_iff in H as [Hs Hl].
  apply String.eqb_eq in Hs. apply Nat.eqb_eq in Hl. subst s.
  split; [reflexivity | exact Hl].
Qed.

Lemma bar_of_level_witness :
  bar 37 20 = Returned "[#######-------------]"%string.
Proof.
  apply (bar_of_level 37). unfold level, MIN_LEVEL, MAX_LEVEL. lia.
Defined.

(** X6: [status_string()] of a pet whose levels are in range raises
    nothing; it is the five lines with each level in a field of exactly 3
    characters, followed by the bar of the level, and the last line says
    ["OK"] for a live pet and ["Game Over"] for a dead one. *)
Theorem status_string_in_range : forall self,
  levels_ok self ->
  status_string self =
    Returned
      ("Name: " ++ name self ++ newline ++
       "Hunger:    " ++ format_3d (hunger self) ++ " " ++
         level_bar (hunger self) ++ " (0=full, 100=starving)" ++ newline ++
       "Happiness: " ++ format_3d (happiness self) ++ " " ++
         level_bar (happiness self) ++ " (0=sad, 100=very happy)" ++ newline ++
       "Age (hours): " ++ str_of_int (age_hours self) ++ newline ++
       "State: " ++ (if alive self then "OK" else "Game Over"))%string /\
  String.length (format_3d (hunger self)) = 3%nat /\
  String.length (format_3d (happiness self)) = 3%nat.
Proof.
  intros self [Hh Ha]. unfold status_string.
  rewrite (bar_level _ Hh), (bar_level _ Ha).
  split; [reflexivity|].
  destruct (level_as_nat _ Hh) as (k & -> & Hk).
  destruct (level_as_nat _ Ha) as (j & -> & Hj).
  pose proof (proj1 (forallb_forall _ _) format_3d_fills_on_levels k Hk) as H1.
  pose proof (proj1 (forallb_forall _ _) format_3d_fills_on_levels j Hj) as H2.
  split; apply Nat.eqb_eq; assumption.
Qed.

Lemma status_string_in_range_witness :
  exists s, status_string starved_tom = Returned s.
Proof.
  eexists.
  apply (status_string_in_range starved_tom).
  rewrite starved_tom_state.
  unfold levels_ok, level, MIN_LEVEL, MAX_LEVEL. cbn. lia.
Defined.

(** ** The pet manager *)

Lemma bind_returned : forall (A B : Type) (c : IO A) (k : A -> IO B) w r,
  bind c k w = Returned r ->
  exists a w1, c w = Returned (a, w1) /\ k a w1 = Returned r.
Proof.
  intros A B c k w r E. unfold bind in E.
  destruct (c w) as [[a w1]|exc]; [|discriminate E].
  exists a, w1. split; [reflexivity | exact E].
Qed.

Lemma bind_raised : forall (A B : Type) (c : IO A) (k : A -> IO B) w exc,
  bind c k w = Raised exc ->
  c w = Raised exc \/
  exists a w1, c w = Returned (a, w1) /\ k a w1 = Raised exc.
Proof.
  intros A B c k w exc E. unfold bind in E.
  destruct (c w) as [[a w1]|exc']; [right | left].
  - exists a, w1. split; [reflexivity | exact E].
  - injection E as <-. reflexivity.
Qed.

Lemma input_returned : forall prompt w line w',
  input prompt w = Returned (line, w') ->
  stdin w = line :: stdin w' /\ rng w' = rng w.
Proof.
  intros prompt w line w' E. unfold input in E.
  destruct (stdin w) as [|l rest]; [discriminate E|].
  injection E as <- <-. split; reflexivity.
Qed.

Lemma input_raised : forall prompt w exc,
  input prompt w = Raised exc -> exc = "EOFError"%string /\ stdin w = [].
Proof.
  intros prompt w exc E. unfold input in E.
  destruct (stdin w) as [|l rest]; [|discriminate E].
  injection E as <-. split; reflexivity.
Qed.

Lemma length_replace_at : forall l pos p,
  List.length (replace_at l pos p) = List.length l.
Proof.
  induction l as [|q l IH]; intros [|pos] p; cbn; try reflexivity.
  rewrite IH. reflexivity.
Qed.

Lemma nth_error_replace_at_same : forall l pos p q,
  nth_error l pos = Some q -> nth_error (replace_at l pos p) pos = Some p.
Proof.
  induction l as [|x l IH]; intros [|pos] p q E; cbn in *;
    try discriminate E; [reflexivity | eapply IH, E].
Qed.

Lemma nth_error_replace_at_other : forall l pos p i,
  i <> pos -> nth_error (replace_at l pos p) i = nth_error l i.
Proof.
  induction l as [|x l IH]; intros [|pos] p [|i] Hne; cbn;
    try reflexivity; [contradiction | apply IH; congruence].
Qed.

Lemma Forall_replace_at : forall (P : Pet -> Prop) l pos p,
  Forall P l -> P p -> Forall P (replace_at l pos p).
Proof.
  intros P. induction l as [|x l IH]; intros [|pos] p Hl Hp; cbn;
    try constructor; inversion Hl; subst; auto.
Qed.

(** The subscript of an index that is a position is that position. *)
Lemma subscript_position : forall len i,
  0 <= i < Z.of_nat len -> subscript len i = Returned (Z.to_nat i).
Proof.
  intros len i H. unfold subscript.
  destruct (Z.leb_spec 0 i); [|lia]. destruct (Z.ltb_spec i (Z.of_nat len)); [|lia].
  reflexivity.
Qed.

(** What [get_active] returns is a pet of the list, at its position. *)
Lemma get_active_ref : forall m pos p,
  get_active m = Returned (Some (pos, p)) -> nth_error (pets m) pos = Some p.
Proof.
  intros m pos p E. unfold get_active in E.
  destruct (active_index m) as [i|]; [|discriminate E].
  destruct (pets m) as [|q l] eqn:Hp; [discriminate E|].
  destruct (subscript (List.length (q :: l)) i) as [n|exc]; [|discriminate E].
  cbn [and_then] in E.
  destruct (nth_error (q :: l) n) as [p0|] eqn:Hn; [|discriminate E].
  injection E as <- <-. exact Hn.
Qed.

(** X7: on a manager whose index is [None] with no pet, or a
    position of the list, [get_active()] raises nothing: it returns [None]
    exactly when there is no pet, and otherwise the pet at the index. *)
Theorem get_active_safe : forall m,
  manager_ok m ->
  (pets m = [] /\ get_active m = Returned None) \/
  (exists pos p,
     get_active m = Returned (Some (pos, p)) /\
     active_index m = Some (Z.of_nat pos) /\
     nth_error (pets m) pos = Some p).
Proof.
  intros m Hok. unfold manager_ok in Hok. unfold get_active.
  destruct (active_index m) as [i|] eqn:Hi.
  - right. destruct (pets m) as [|q l] eqn:Hp; [cbn in Hok; lia|].
    rewrite (subscript_position _ _ Hok). cbn [and_then].
    destruct (nth_error (q :: l) (Z.to_nat i)) as [p|] eqn:Hn.
    + exists (Z.to_nat i), p. split; [reflexivity|].
      split; [f_equal; lia | exact Hn].
    + apply nth_error_None in Hn. lia.
  - left. split; [exact Hok | reflexivity].
Qed.

Lemma get_active_safe_witness :
  get_active (mkManager [Pet_init "Tom"; Pet_init "Rex"] (Some 1)) =
  Returned (Some (1%nat, Pet_init "Rex")).
Proof.
  destruct (get_active_safe (mkManager [Pet_init "Tom"; Pet_init "Rex"] (Some 1)))
    as [[H _] | (pos & p & E & Hi & Hp)].
  - unfold manager_ok. cbn. lia.
  - discriminate H.
  - injection Hi as Hi. assert (pos = 1%nat) by lia. subst pos.
    cbn in Hp. injection Hp as <-. exact E.
Defined.

Section SessionProperties.

Context {builtins : Builtins}.

(** X8: [create_pet()] reads one line.  When the line is blank once
    stripped, the manager is left as it was; otherwise a new pet named by
    the stripped line is appended, the pets before it untouched, and it is
    the pet that [get_active()] returns from then on.  With no line left
    the call raises [EOFError]. *)
Theorem create_pet_effect : forall m line rest out g,
  (str_strip line = ""%string ->
   create_pet m (mkWorld (line :: rest) out g) =
   Returned (m, mkWorld rest
                  (out ++ ["Enter pet name: "%string] ++
                          [("Invalid name." ++ newline)%string]) g)) /\
  (str_strip line <> ""%string ->
   exists m' w',
     create_pet m (mkWorld (line :: rest) out g) = Returned (m', w') /\
     stdin w' = rest /\ rng w' = g /\
     pets m' = pets m ++ [Pet_init (str_strip line)] /\
     get_active m' =
       Returned (Some (List.length (pets m), Pet_init (str_strip line)))) /\
  create_pet m (mkWorld [] out g) = Raised "EOFError".
Proof.
  intros m line rest out g. split; [|split].
  - intros Hblank. unfold create_pet, bind, input. cbn [stdin stdout rng].
    rewrite Hblank. cbn. rewrite <- app_assoc. reflexivity.
  - intros Hname. unfold create_pet, bind, input. cbn [stdin stdout rng].
    destruct (String.eqb_spec (str_strip line) "") as [E|_]; [contradiction|].
    eexists _, _. split; [reflexivity|]. cbn [stdin rng pets ret].
    split; [reflexivity|]. split; [reflexivity|]. split; [reflexivity|].
    unfold get_active. cbn [active_index pets].
    destruct (pets m ++ [Pet_init (str_strip line)]) as [|q l] eqn:Hp.
    { destruct (pets m); discriminate Hp. }
    rewrite <- Hp. rewrite subscript_position
      by (rewrite length_app; cbn [List.length]; lia).
    cbn [and_then].
    replace (Z.to_nat (Z.of_nat (List.length (pets m ++ [Pet_init (str_strip line)])) - 1))
      with (List.length (pets m)) by (rewrite length_app; cbn [List.length]; lia).
    rewrite nth_error_app2 by lia. rewrite Nat.sub_diag. reflexivity.
  - reflexivity.
Qed.

Lemma list_lines_returns : forall m ps i w,
  exists w',
    list_lines m i ps w = Returned (tt, w') /\
    stdin w' = stdin w /\ rng w' = rng w /\
    stdout w' =
      stdout w ++
      map (fun ip => (list_line m (fst ip) (snd ip) ++ newline)%string)
        (combine (seq i (List.length ps)) ps).
Proof.
  intros m. induction ps as [|p ps IH]; intros i w.
  - exists w. cbn. rewrite app_nil_r. repeat split.
  - cbn [list_lines]. unfold bind at 1. unfold print at 1.
    destruct (IH (S i)
                (mkWorld (stdin w)
                   (stdout w ++ [(list_line m i p ++ newline)%string]) (rng w)))
      as (w' & E & Hin & Hr & Hout).
    exists w'. split; [exact E|]. cbn [stdin rng stdout] in *.
    split; [exact Hin|]. split; [exact Hr|].
    rewrite Hout, <- app_assoc. reflexivity.
Qed.

Lemma list_pets_returns : forall m w,
  exists w',
    list_pets m w = Returned (tt, w') /\
    stdin w' = stdin w /\ rng w' = rng w.
Proof.
  intros m w. unfold list_pets. destruct (pets m) as [|p ps] eqn:Hp.
  - eexists. split; [reflexivity|]. split; reflexivity.
  - rewrite <- Hp.
    destruct (list_lines_returns m (pets m) O w) as (w' & E & Hin & Hr & _).
    exists w'. split; [exact E|]. split; assumption.
Qed.

(** X9: [list_pets()] raises nothing, reads nothing and draws nothing;
    it writes one line when there is no pet and otherwise one line per
    pet, in the order of the list, numbered from 1. *)
Theorem list_pets_lines : forall m w,
  exists w',
    list_pets m w = Returned (tt, w') /\
    stdin w' = stdin w /\ rng w' = rng w /\
    stdout w' =
      stdout w ++
      match pets m with
      | [] => [("No pets created yet." ++ newline)%string]
      | _ =>
          map (fun ip => (list_line m (fst ip) (snd ip) ++ newline)%string)
            (combine (seq 0 (List.length (pets m))) (pets m))
      end.
Proof.
  intros m w. unfold list_pets. destruct (pets m) as [|p ps] eqn:Hp.
  - eexists. split; [reflexivity|]. repeat split.
  - rewrite <- Hp. apply list_lines_returns.
Qed.

Lemma switch_active_spec : forall m w,
  match switch_active m w with
  | Returned (m', w') =>
      pets m' = pets m /\
      (List.length (stdin w') <= List.length (stdin w))%nat /\
      rng w' = rng w /\
      (m' = m \/
       exists line choice p,
         int_of_str line = Some choice /\
         1 <= choice <= Z.of_nat (List.length (pets m)) /\
         active_index m' = Some (choice - 1) /\
         get_active m' = Returned (Some (Z.to_nat (choice - 1), p)))
  | Raised exc => exc = "EOFError"%string
  end.
Proof.
  intros m w. unfold switch_active.
  destruct (pets m) as [|q l] eqn:Hp.
  - cbn. repeat split; auto.
  - rewrite <- Hp. unfold bind at 1.
    destruct (list_pets_returns m w) as (w1 & E1 & Hin1 & Hr1). rewrite E1.
    unfold bind at 1.
    destruct (input "Select active pet number: " w1) as [[line w2]|exc] eqn:E2;
      [| apply input_raised in E2; tauto].
    apply input_returned in E2 as [Hin2 Hr2].
    assert (Hlen : (List.length (stdin w2) <= List.length (stdin w))%nat).
    { rewrite <- Hin1, Hin2. cbn [List.length]. lia. }
    destruct (int_of_str line) as [choice|] eqn:Hint.
    + destruct ((1 <=? choice) && (choice <=? Z.of_nat (List.length (pets m))))
        eqn:Hrange.
      * apply andb_true_iff in Hrange as [H1 H2].
        apply Z.leb_le in H1, H2. cbn [pets].
        unfold bind at 1, pure_call.
        rewrite subscript_position by lia. cbn [and_then].
        destruct (nth_error (pets m) (Z.to_nat (choice - 1))) as [p|] eqn:Hn;
          [| apply nth_error_None in Hn; lia].
        cbn. split; [reflexivity|]. split; [exact Hlen|].
        split; [congruence|]. right. exists line, choice, p.
        split; [exact Hint|]. split; [lia|]. split; [reflexivity|].
        unfold get_active. cbn [active_index pets]. rewrite Hp, <- Hp.
        rewrite subscript_position by lia. cbn [and_then].
        rewrite Hn. reflexivity.
      * cbn. split; [reflexivity|]. split; [exact Hlen|].
        split; [congruence | left; reflexivity].
    + cbn. split; [reflexivity|]. split; [exact Hlen|].
      split; [congruence | left; reflexivity].
Qed.


(** *** Pets under the menu *)

Lemma pet_evolves_refl : forall p, pet_evolves p p.
Proof.
  intros p. unfold pet_evolves. split; [reflexivity|]. split; [lia | auto].
Qed.

Lemma Pet_init_ok : forall nm, pet_ok (Pet_init nm).
Proof.
  intros nm. split; [apply Pet_init_levels|]. split; [cbn; lia|].
  cbn. discriminate.
Qed.

(** [tick] keeps a pet well-formed, whatever the hours and the draws. *)
Lemma tick_pet_ok : forall p hours g,
  pet_ok p ->
  exists p' g' out,
    tick p hours g = Returned (p', g', out) /\
    pet_ok p' /\ name p' = name p /\
    age_hours p <= age_hours p' <= age_hours p + Z.max 0 hours /\
    (alive p = false -> p' = p).
Proof.
  intros p hours g (Hlev & Hage & Hdead). unfold tick.
  destruct (tick_loop_returns (Z.to_nat hours) p g [])
    as (p' & g' & out & E & Hn & Hl & Hg).
  exists p', g', out. split; [exact E|].
  assert (Hsame : alive p = false -> p' = p).
  { intros Hd. rewrite (tick_loop_dead _ _ _ _ Hd) in E.
    injection E as <- _ _. reflexivity. }
  split; [|split; [exact Hn | split; [lia | exact Hsame]]].
  split; [apply Hl, Hlev|]. split; [lia|].
  intros Hd'. destruct (alive p) eqn:Hal.
  - eapply tick_loop_killed; eassumption.
  - rewrite (Hsame eq_refl). apply Hdead. reflexivity.
Qed.

Lemma tick_io_ok : forall p hours w,
  pet_ok p ->
  exists p' w',
    tick_io p hours w = Returned (p', w') /\
    stdin w' = stdin w /\
    pet_ok p' /\ name p' = name p /\
    age_hours p <= age_hours p' <= age_hours p + Z.max 0 hours /\
    (alive p = false -> p' = p).
Proof.
  intros p hours w Hok. unfold tick_io.
  destruct (tick_pet_ok p hours (rng w) Hok) as (p' & g' & out & E & H).
  rewrite E. eexists _, _. split; [reflexivity|]. split; [reflexivity | exact H].
Qed.

Lemma hourly_ticks_tick_io : forall n pet w,
  hourly_ticks n pet w = tick_io pet (Z.of_nat n) w.
Proof.
  induction n as [|n IH]; intros pet w.
  - unfold tick_io, tick. cbn. rewrite app_nil_r. destruct w; reflexivity.
  - cbn [hourly_ticks]. unfold bind. unfold tick_io at 2.
    replace (Z.of_nat (S n)) with (1 + Z.of_nat n) by lia.
    rewrite tick_add by lia.
    unfold tick_io at 1.
    destruct (tick pet 1 (rng w)) as [[[p1 g1] o1]|exc]; [|reflexivity].
    rewrite IH. unfold tick_io. cbn [rng stdin stdout].
    destruct (tick p1 (Z.of_nat n) g1) as [[[p2 g2] o2]|exc]; [|reflexivity].
    rewrite map_app, app_assoc. reflexivity.
Qed.

(** X11: menu key 6 advances the active pet by a number of hours from 1
    to 24, whatever was typed, and its loop of [tick(1)] calls leaves the
    pet, the generator and the output that one [tick] call with that
    number leaves. *)
Theorem advance_time_is_one_tick : forall line pet w,
  1 <= hours_of_line line <= 24 /\
  hourly_ticks (Z.to_nat (hours_of_line line)) pet w =
  tick_io pet (hours_of_line line) w.
Proof.
  intros line pet w.
  assert (H : 1 <= hours_of_line line <= 24).
  { unfold hours_of_line. destruct (str_strip line =? "")%string; [lia|].
    destruct (int_of_str (str_strip line)); lia. }
  split; [exact H|]. rewrite hourly_ticks_tick_io. rewrite Z2Nat.id by lia.
  reflexivity.
Qed.

(** *** One iteration of the menu loop *)

Lemma get_active_spec : forall m,
  manager_ok m ->
  exists pet,
    get_active m = Returned pet /\
    (pet = None -> pets m = []) /\
    (forall ref, pet = Some ref ->
       nth_error (pets m) (fst ref) = Some (snd ref)).
Proof.
  intros m Hok. unfold manager_ok in Hok.
  destruct (get_active m) as [pet|exc] eqn:E.
  - exists pet. split; [reflexivity|]. split.
    + intros ->. unfold get_active in E.
      destruct (active_index m) as [i|]; [|exact Hok].
      destruct (pets m) as [|q l] eqn:Hp; [reflexivity|].
      rewrite (subscript_position _ _ Hok) in E. cbn [and_then] in E.
      destruct (nth_error (q :: l) (Z.to_nat i)) eqn:Hn; [discriminate E|].
      apply nth_error_None in Hn. lia.
    + intros [pos p] ->. apply get_active_ref, E.
  - exfalso. unfold get_active in E.
    destruct (active_index m) as [i|]; [|discriminate E].
    destruct (pets m) as [|q l] eqn:Hp; [discriminate E|].
    rewrite (subscript_position _ _ Hok) in E. cbn [and_then] in E.
    destruct (nth_error (q :: l) (Z.to_nat i)) eqn:Hn; [discriminate E|].
    apply nth_error_None in Hn. lia.
Qed.

Lemma create_pet_spec : forall m w,
  session_ok m ->
  match create_pet m w with
  | Returned (m', w') =>
      session_ok m' /\
      (exists extra,
         pets m' = pets m ++ extra /\ (List.length extra <= 1)%nat) /\
      (List.length (stdin w') < List.length (stdin w))%nat
  | Raised exc => exc = "EOFError"%string
  end.
Proof.
  intros m w [Hm Hp]. unfold create_pet. unfold bind at 1.
  destruct (input "Enter pet name: " w) as [[line w1]|exc] eqn:E;
    [| apply input_raised in E; tauto].
  apply input_returned in E as [Hin _].
  assert (Hlt : (List.length (stdin w1) < List.length (stdin w))%nat).
  { rewrite Hin. cbn [List.length]. lia. }
  destruct (str_strip line =? "")%string.
  - cbn. split; [split; assumption|]. split; [|exact Hlt].
    exists []. rewrite app_nil_r. split; [reflexivity | cbn; lia].
  - cbn. split; [split|].
    + unfold manager_ok. cbn [active_index pets].
      rewrite length_app. cbn [List.length]. lia.
    + cbn [pets]. apply Forall_app. split; [exact Hp|].
      constructor; [apply Pet_init_ok | constructor].
    + split; [|exact Hlt]. eexists. split; [reflexivity | cbn; lia].
Qed.

Lemma ensure_active_pet_spec : forall m w,
  session_ok m ->
  match ensure_active_pet m w with
  | Returned ((pet, m'), w') =>
      session_ok m' /\
      (exists extra,
         pets m' = pets m ++ extra /\ (List.length extra <= 1)%nat) /\
      (List.length (stdin w') <= List.length (stdin w))%nat /\
      (forall ref, pet = Some ref ->
         nth_error (pets m') (fst ref) = Some (snd ref))
  | Raised exc => exc = "EOFError"%string
  end.
Proof.
  intros m w Hok. unfold ensure_active_pet. unfold bind at 1, pure_call at 1.
  destruct (get_active_spec m (proj1 Hok)) as (pet & E & _ & Href). rewrite E.
  destruct pet as [ref|].
  - cbn. split; [exact Hok|]. split; [|split; [lia | exact Href]].
    exists []. rewrite app_nil_r. split; [reflexivity | cbn; lia].
  - unfold bind at 1, print at 1. unfold bind at 1.
    pose proof (create_pet_spec m
                  (mkWorld (stdin w)
                     (stdout w ++ [("No active pet. Create one first." ++ newline)%string])
                     (rng w)) Hok) as Hc.
    destruct (create_pet m _) as [[m1 w1]|exc]; [|exact Hc].
    destruct Hc as (Hok1 & Hext & Hlt). cbn [stdin] in Hlt.
    unfold bind, pure_call.
    destruct (get_active_spec m1 (proj1 Hok1)) as (pet1 & E1 & _ & Href1).
    rewrite E1. cbn. split; [exact Hok1|]. split; [exact Hext|].
    split; [lia | exact Href1].
Qed.

Lemma feed_method_ok : method_ok feed.
Proof.
  intros q. eexists. split; [reflexivity|].
  split; [eapply feed_levels; reflexivity | repeat split].
Qed.

Lemma play_method_ok : method_ok play.
Proof.
  intros q. eexists. split; [reflexivity|].
  split; [eapply play_levels; reflexivity | repeat split].
Qed.

Lemma give_toy_method_ok : method_ok give_toy.
Proof.
  intros q. eexists. split; [reflexivity|].
  split; [eapply give_toy_levels; reflexivity | repeat split].
Qed.

Lemma give_medicine_method_ok : method_ok give_medicine.
Proof.
  intros q. eexists. split; [reflexivity|].
  split; [eapply give_medicine_levels; reflexivity | repeat split].
Qed.

Lemma put_ok : forall m pos p p',
  session_ok m -> nth_error (pets m) pos = Some p ->
  pet_ok p' -> pet_evolves p p' ->
  session_ok (put m pos p') /\ manager_evolves_by 0 m (put m pos p').
Proof.
  intros m pos p p' [Hm Hp] Hn Hok Hev. split; [split|split; [|split]].
  - unfold manager_ok, put in *. cbn [active_index pets].
    destruct (active_index m); [rewrite length_replace_at; exact Hm|].
    rewrite Hm in Hn. destruct pos; discriminate Hn.
  - cbn [put pets]. apply Forall_replace_at; assumption.
  - cbn [put pets]. rewrite length_replace_at. lia.
  - intros i q Hq. cbn [put pets]. destruct (Nat.eq_dec i pos) as [->|Hne].
    + exists p'. rewrite (nth_error_replace_at_same _ _ _ _ Hn).
      split; [reflexivity|]. congruence.
    + exists q. rewrite nth_error_replace_at_other by exact Hne.
      split; [exact Hq | apply pet_evolves_refl].
  - exists pos. intros i q Hne Hq. cbn [put pets].
    rewrite nth_error_replace_at_other by exact Hne. exact Hq.
Qed.

Lemma nth_error_pet_ok : forall m pos p,
  session_ok m -> nth_error (pets m) pos = Some p -> pet_ok p.
Proof.
  intros m pos p [_ Hp] Hn.
  apply (proj1 (Forall_forall _ _) Hp). eapply nth_error_In, Hn.
Qed.

Lemma manager_evolves_by_refl : forall k m, manager_evolves_by k m m.
Proof.
  intros k m. split; [lia|]. split.
  - intros pos p Hn. exists p. split; [exact Hn | apply pet_evolves_refl].
  - exists O. intros pos p _ Hn. exact Hn.
Qed.

Lemma action_ok : forall method said m pos p w,
  method_ok method -> session_ok m ->
  nth_error (pets m) pos = Some p -> alive p = true ->
  step_to 0 m w (action method said m (pos, p) w).
Proof.
  intros method said m pos p w Hmeth Hok Hn Hal.
  pose proof (nth_error_pet_ok _ _ _ Hok Hn) as (Hlev & Hage & _).
  destruct (Hmeth p) as (q & Eq & Hql & Hqa & Hqn & Hqg).
  unfold action. unfold bind at 1, pure_call at 1. rewrite Eq.
  unfold bind at 1, print at 1. unfold bind at 1.
  assert (Hqok : pet_ok q).
  { split; [exact Hql|]. split; [lia|]. intros Hd. congruence. }
  destruct (tick_io_ok q 1
              (mkWorld (stdin w) (stdout w ++ [(said q ++ newline)%string]) (rng w))
              Hqok)
    as (p' & w' & E & Hin & Hok' & Hn' & Hg' & _).
  rewrite E. cbn [ret step_to]. cbn [stdin] in Hin.
  assert (Hev : pet_evolves p p').
  { split; [congruence|]. split; [lia|]. intros Hd. congruence. }
  destruct (put_ok m pos p p' Hok Hn Hok' Hev) as [H1 H2].
  split; [exact H1|]. split; [exact H2|]. rewrite Hin. lia.
Qed.

Lemma step_to_weaken : forall k m w r,
  step_to 0 m w r -> step_to k m w r.
Proof.
  intros k m w [[[c m'] w']|exc] H; cbn in *; [|exact H].
  destruct H as (H1 & [Hlen Hkeep] & H3).
  split; [exact H1|]. split; [|exact H3]. split; [lia | exact Hkeep].
Qed.

Lemma step_to_elim : forall k m0 w0 r (P : PetManager -> World -> Prop),
  step_to k m0 w0 r ->
  (forall m' w',
     session_ok m' -> manager_evolves_by k m0 m' ->
     (List.length (stdin w') <= List.length (stdin w0))%nat -> P m' w') ->
  match r with
  | Returned ((_, m'), w') => P m' w'
  | Raised exc => exc = "EOFError"%string
  end.
Proof.
  intros k m0 w0 [[[c m'] w']|exc] P H HP; cbn in *; [|exact H].
  destruct H as (H1 & H2 & H3). apply HP; assumption.
Qed.

Lemma dispatch_ok : forall choice pet m w,
  session_ok m ->
  (is_pet_choice choice = true ->
   exists ref,
     pet = Some ref /\ nth_error (pets m) (fst ref) = Some (snd ref) /\
     (is_action_choice choice = true -> alive (snd ref) = true)) ->
  step_to (if is_pet_choice choice then 0 else 1) m w
    (dispatch choice pet m w).
Proof.
  intros choice pet m w Hok Hpet. unfold dispatch.
  unfold is_pet_choice, is_action_choice in *. cbn [existsb] in *.
  destruct (choice =? "1")%string eqn:E1.
  { destruct (Hpet eq_refl) as ([pos p] & -> & Hn & Hal). cbn [orb].
    apply action_ok; [apply feed_method_ok | exact Hok | exact Hn |].
    apply Hal. reflexivity. }
  destruct (choice =? "2")%string eqn:E2.
  { destruct (Hpet eq_refl) as ([pos p] & -> & Hn & Hal). cbn [orb].
    apply action_ok; [apply play_method_ok | exact Hok | exact Hn |].
    apply Hal. reflexivity. }
  destruct (choice =? "3")%string eqn:E3.
  { destruct (Hpet eq_refl) as ([pos p] & -> & Hn & Hal). cbn [orb].
    apply action_ok; [apply give_toy_method_ok | exact Hok | exact Hn |].
    apply Hal. reflexivity. }
  destruct (choice =? "4")%string eqn:E4.
  { destruct (Hpet eq_refl) as ([pos p] & -> & Hn & Hal). cbn [orb].
    apply action_ok; [apply give_medicine_method_ok | exact Hok | exact Hn |].
    apply Hal. reflexivity. }
  destruct (choice =? "5")%string eqn:E5.
  { destruct (Hpet eq_refl) as ([pos p] & -> & Hn & _). cbn [orb snd].
    pose proof (nth_error_pet_ok _ _ _ Hok Hn) as (Hlev & _).
    destruct (status_string_returns p Hlev) as (status & Es).
    unfold bind, pure_call. rewrite Es. cbn.
    split; [exact Hok|]. split; [apply manager_evolves_by_refl | lia]. }
  destruct (choice =? "6")%string eqn:E6.
  { destruct (Hpet eq_refl) as ([pos p] & -> & Hn & _). cbn [orb snd fst].
    pose proof (nth_error_pet_ok _ _ _ Hok Hn) as Hpok.
    unfold bind at 1.
    destruct (input "Advance how many hours? (default 1): " w)
      as [[line w1]|exc] eqn:Ein; [| apply input_raised in Ein; cbn; tauto].
    apply input_returned in Ein as [Hin _].
    unfold bind at 1, print at 1. unfold bind at 1.
    rewrite hourly_ticks_tick_io.
    assert (Hh : 1 <= hours_of_line line <= 24).
    { unfold hours_of_line. destruct (str_strip line =? "")%string; [lia|].
      destruct (int_of_str (str_strip line)); lia. }
    rewrite Z2Nat.id by lia.
    match goal with |- context [tick_io p _ ?w0] =>
      destruct (tick_io_ok p (hours_of_line line) w0 Hpok)
        as (p' & w' & E & Hin' & Hok' & Hn' & Hg' & Hd')
    end.
    rewrite E. cbn [stdin] in Hin'. cbn.
    assert (Hev : pet_evolves p p').
    { split; [exact Hn'|]. split; [lia | exact Hd']. }
    destruct (put_ok m pos p p' Hok Hn Hok' Hev) as [H1 H2].
    split; [exact H1|]. split; [exact H2|]. rewrite Hin', Hin.
    cbn [List.length]. lia. }
  cbn [orb].
  destruct (choice =? "7")%string.
  { unfold bind. pose proof (create_pet_spec m w Hok) as Hc.
    destruct (create_pet m w) as [[m1 w1]|exc]; [|exact Hc].
    destruct Hc as (Hok1 & (extra & Hext & Hle) & Hlt). cbn.
    assert (Hsame : forall pos p,
              nth_error (pets m) pos = Some p ->
              nth_error (pets m1) pos = Some p).
    { intros pos p Hn. rewrite Hext. rewrite nth_error_app1; [exact Hn|].
      apply nth_error_Some. congruence. }
    split; [exact Hok1|]. split; [|lia]. split; [|split].
    - rewrite Hext, length_app. lia.
    - intros pos p Hn. exists p.
      split; [apply Hsame, Hn | apply pet_evolves_refl].
    - exists O. intros pos p _ Hn. apply Hsame, Hn. }
  destruct (choice =? "8")%string.
  { unfold bind. pose proof (switch_active_spec m w) as Hs.
    destruct (switch_active m w) as [[m1 w1]|exc]; [|exact Hs].
    destruct Hs as (Hp & Hlen & _ & Hm). cbn.
    split; [|split; [|exact Hlen]].
    - destruct Hok as [Hmok Hall]. split; [|rewrite Hp; exact Hall].
      destruct Hm as [->|(line & c & p & _ & Hc & Ha & _)]; [exact Hmok|].
      unfold manager_ok. rewrite Ha, Hp. lia.
    - split; [rewrite Hp; lia|]. split.
      + intros pos p Hn. exists p.
        rewrite Hp. split; [exact Hn | apply pet_evolves_refl].
      + exists O. intros pos p _ Hn. rewrite Hp. exact Hn. }
  destruct (choice =? "9")%string.
  { unfold bind. destruct (list_pets_returns m w) as (w1 & E & Hin & _).
    rewrite E. cbn. split; [exact Hok|].
    split; [apply manager_evolves_by_refl | rewrite Hin; lia]. }
  cbn. split; [exact Hok|]. split; [apply manager_evolves_by_refl | lia].
Qed.

Lemma print_then : forall (A : Type) s (k : IO A) w,
  exists w1,
    bind (print s) (fun _ => k) w = k w1 /\
    stdin w1 = stdin w /\ rng w1 = rng w.
Proof.
  intros A s k w. eexists. split; [reflexivity|]. split; reflexivity.
Qed.

Lemma print_menu_returns : forall w,
  exists w', print_menu w = Returned (tt, w') /\ stdin w' = stdin w.
Proof.
  intros w. unfold print_menu.
  repeat match goal with
  | |- context [bind (print ?s) (fun _ => ?k) ?w0] =>
      let w1 := fresh "w" in
      let E := fresh "E" in
      let Hin := fresh "Hin" in
      destruct (print_then _ s k w0) as (w1 & E & Hin & _);
      rewrite E; clear E
  end.
  eexists. split; [reflexivity|]. cbn [stdin]. congruence.
Qed.

Lemma iteration_spec : forall m w,
  session_ok m ->
  match iteration m w with
  | Returned ((_, m'), w') =>
      session_ok m' /\ manager_evolves m m' /\
      (List.length (stdin w') < List.length (stdin w))%nat
  | Raised exc => exc = "EOFError"%string
  end.
Proof.
  intros m w Hok. unfold iteration. unfold bind at 1.
  destruct (print_menu_returns w) as (w0 & E0 & Hin0). rewrite E0.
  unfold bind at 1.
  destruct (input "Choose an option: " w0) as [[line w1]|exc] eqn:Ein;
    [| apply input_raised in Ein; tauto].
  apply input_returned in Ein as [Hin1 _].
  assert (Hlt : (List.length (stdin w1) < List.length (stdin w))%nat).
  { rewrite <- Hin0, Hin1. cbn [List.length]. lia. }
  destruct (str_strip line =? "")%string.
  { cbn. split; [exact Hok|].
    split; [apply manager_evolves_by_refl | exact Hlt]. }
  destruct (str_strip line =? "0")%string.
  { cbn. split; [exact Hok|].
    split; [apply manager_evolves_by_refl | exact Hlt]. }
  destruct (is_pet_choice (str_strip line)) eqn:Hpc.
  - unfold bind at 1.
    pose proof (ensure_active_pet_spec m w1 Hok) as He.
    destruct (ensure_active_pet m w1) as [[[pet m1] w2]|exc]; [|exact He].
    destruct He as (Hok1 & (extra & Hext & Hle) & Hlen & Href).
    assert (Hgrow : forall m',
              manager_evolves_by 0 m1 m' -> manager_evolves m m').
    { assert (Hsame : forall pos p,
                nth_error (pets m) pos = Some p ->
                nth_error (pets m1) pos = Some p).
      { intros pos p Hn. rewrite Hext. rewrite nth_error_app1; [exact Hn|].
        apply nth_error_Some. congruence. }
      intros m' (Hl & Hk & (changed & Hc)).
      split; [rewrite Hext, length_app in Hl; lia|]. split.
      - intros pos p Hn. apply Hk, Hsame, Hn.
      - exists changed. intros pos p Hne Hn. apply (Hc pos p Hne), Hsame, Hn. }
    destruct pet as [[pos p]|].
    + destruct (negb (alive p) && is_action_choice (str_strip line)) eqn:Hgate.
      * cbn. split; [exact Hok1|].
        split; [apply Hgrow, manager_evolves_by_refl | lia].
      * pose proof (dispatch_ok (str_strip line) (Some (pos, p)) m1 w2 Hok1)
          as Hd.
        rewrite Hpc in Hd.
        assert (Hpre : true = true ->
                  exists ref, Some (pos, p) = Some ref /\
                    nth_error (pets m1) (fst ref) = Some (snd ref) /\
                    (is_action_choice (str_strip line) = true ->
                     alive (snd ref) = true)).
        { intros _. exists (pos, p). split; [reflexivity|].
          split; [apply (Href _ eq_refl)|]. intros Hact. cbn [snd].
          rewrite Hact in Hgate. destruct (alive p); [reflexivity|].
          discriminate Hgate. }
        specialize (Hd Hpre).
        apply (step_to_elim _ _ _ _
                 (fun m' w' =>
                    session_ok m' /\ manager_evolves m m' /\
                    (List.length (stdin w') < List.length (stdin w))%nat) Hd).
        intros m2 w3 H1 H2 H3.
        split; [exact H1|]. split; [apply Hgrow, H2 | lia].
    + cbn. split; [exact Hok1|].
      split; [apply Hgrow, manager_evolves_by_refl | lia].
  - pose proof (dispatch_ok (str_strip line) None m w1 Hok) as Hd.
    rewrite Hpc in Hd.
    assert (Hpre : false = true ->
              exists ref, @None PetRef = Some ref /\
                nth_error (pets m) (fst ref) = Some (snd ref) /\
                (is_action_choice (str_strip line) = true ->
                 alive (snd ref) = true)) by discriminate.
    specialize (Hd Hpre).
    apply (step_to_elim _ _ _ _
             (fun m' w' =>
                session_ok m' /\ manager_evolves m m' /\
                (List.length (stdin w') < List.length (stdin w))%nat) Hd).
    intros m2 w3 H1 H2 H3.
    split; [exact H1|]. split; [exact H2 | lia].
Qed.


(** X12: an iteration of the menu loop on a well-formed session, one
    whose active index is usable and whose pets have levels from 0 to 100,
    a non-negative age and, when dead, hunger 100 or happiness 0, leaves
    such a session and has read at least one line; the only exception it
    can raise is [EOFError]. *)
Theorem iteration_safe : forall m w,
  session_ok m ->
  match iteration m w with
  | Returned ((_, m'), w') =>
      session_ok m' /\
      (List.length (stdin w') < List.length (stdin w))%nat
  | Raised exc => exc = "EOFError"%string
  end.
Proof.
  intros m w Hok. pose proof (iteration_spec m w Hok) as H.
  destruct (iteration m w) as [[[c m'] w']|exc]; [|exact H].
  split; apply H.
Qed.

(** X13: an iteration of the menu loop keeps every pet at its position
    with its name, ages it by at most 24 hours, changes nothing of a pet
    that is dead, whatever key is pressed, changes at most one pet in
    all, and adds at most one pet, at the end of the list. *)
Theorem iteration_keeps_pets : forall m w,
  session_ok m ->
  match iteration m w with
  | Returned ((_, m'), _) => manager_evolves m m'
  | Raised _ => True
  end.
Proof.
  intros m w Hok. pose proof (iteration_spec m w Hok) as H.
  destruct (iteration m w) as [[[c m'] w']|exc]; [|exact I].
  apply H.
Qed.

Lemma pets_kept_refl : forall m, pets_kept m m.
Proof.
  intros m pos p Hn. exists p. split; [exact Hn|].
  split; [reflexivity|]. split; [lia | auto].
Qed.

Lemma pets_kept_step : forall m m1 m2,
  manager_evolves m m1 -> pets_kept m1 m2 -> pets_kept m m2.
Proof.
  intros m m1 m2 (_ & H1 & _) H2 pos p Hn.
  destruct (H1 pos p Hn) as (p1 & Hn1 & Hname1 & Hage1 & Hd1).
  destruct (H2 pos p1 Hn1) as (p2 & Hn2 & Hname2 & Hage2 & Hd2).
  exists p2. split; [exact Hn2|]. split; [congruence|]. split; [lia|].
  intros Hd. specialize (Hd1 Hd). subst p1. apply Hd2, Hd.
Qed.

Lemma main_loop_spec : forall fuel m w,
  session_ok m -> (List.length (stdin w) < fuel)%nat ->
  exists r,
    main_loop fuel m w = Some r /\
    match r with
    | Returned (m', _) => session_ok m' /\ pets_kept m m'
    | Raised exc => exc = "EOFError"%string
    end.
Proof.
  induction fuel as [|fuel IH]; intros m w Hok Hlt; [lia|].
  cbn [main_loop]. pose proof (iteration_spec m w Hok) as H.
  destruct (iteration m w) as [[[[|] m'] w']|exc].
  - destruct H as (Hok' & Hev & Hlen).
    destruct (IH m' w' Hok') as (r & E & Hr); [lia|].
    exists r. split; [exact E|]. destruct r as [[m2 w2]|exc]; [|exact Hr].
    destruct Hr as [Hok2 Hk]. split; [exact Hok2|].
    eapply pets_kept_step; eassumption.
  - destruct H as (Hok' & Hev & _). eexists. split; [reflexivity|].
    split; [exact Hok'|]. eapply pets_kept_step; [exact Hev|].
    apply pets_kept_refl.
  - eexists. split; [reflexivity | exact H].
Qed.

(** X14: [main] ends on every input: each iteration of its loop reads
    a line, so the loop stops at the key 0 or when the input runs out.  It
    then returns with a well-formed session, or raises [EOFError], and
    nothing else: no [IndexError] from the active index, no error from the
    status display. *)
Theorem main_ends_safely : forall w,
  exists r,
    main w = Some r /\
    match r with
    | Returned (m, _) => session_ok m
    | Raised exc => exc = "EOFError"%string
    end.
Proof.
  intros w. unfold main.
  assert (Hinit : session_ok PetManager_init).
  { split; [reflexivity | constructor]. }
  unfold bind at 1, print at 1.
  match goal with |- context [create_pet PetManager_init ?w0] =>
    pose proof (create_pet_spec PetManager_init w0 Hinit) as Hc;
    destruct (create_pet PetManager_init w0) as [[m1 w1]|exc]
  end.
  - destruct Hc as (Hok & _ & _).
    destruct (main_loop_spec (S (List.length (stdin w1))) m1 w1 Hok) as (r & E & Hr);
      [lia|].
    exists r. split; [exact E|]. destruct r as [[m2 w2]|exc]; [apply Hr | exact Hr].
  - eexists. split; [reflexivity | exact Hc].
Qed.

(** X15: from a well-formed session, the menu loop run to its end,
    with more fuel than lines of input, whatever keys are pressed, keeps
    every pet at its position under its name, never makes it younger, and
    leaves a pet that was dead exactly as it was. *)
Theorem main_loop_keeps_pets : forall fuel m w,
  session_ok m -> (List.length (stdin w) < fuel)%nat ->
  exists r,
    main_loop fuel m w = Some r /\
    match r with
    | Returned (m', _) => pets_kept m m'
    | Raised exc => exc = "EOFError"%string
    end.
Proof.
  intros fuel m w Hok Hlt.
  destruct (main_loop_spec fuel m w Hok Hlt) as (r & E & Hr).
  exists r. split; [exact E|]. destruct r as [[m' w']|exc]; [apply Hr | exact Hr].
Qed.

End SessionProperties.

(** ** The session theorems at a sample session *)

Lemma sample_session_ok : session_ok sample_manager.
Proof.
  split.
  - unfold manager_ok. cbn. lia.
  - repeat constructor; unfold level, MIN_LEVEL, MAX_LEVEL; cbn;
      try lia; try discriminate; auto.
Qed.

(** [main] on the lines ["Tom"], ["1"], ["0"]: the pet is created, fed
    and aged by the hour that the feeding costs, and [main] returns. *)
Example main_feeds_tom :
  match main (mkWorld ["Tom"; "1"; "0"]%string [] starving_draws) with
  | Some (Returned (m, w)) =>
      m = mkManager [mkPet "Tom" 42 46 1 true] (Some 0) /\ stdin w = []
  | _ => False
  end.
Proof. vm_compute. split; reflexivity. Qed.

Lemma create_pet_effect_witness :
  exists m' w',
    create_pet sample_manager (mkWorld ["Kim"; "0"]%string [] starving_draws) =
      Returned (m', w') /\
    pets m' = pets sample_manager ++ [Pet_init "Kim"] /\
    get_active m' = Returned (Some (2%nat, Pet_init "Kim")).
Proof.
  destruct (create_pet_effect sample_manager "Kim" ["0"%string] [] starving_draws)
    as (_ & H & _).
  destruct H as (m' & w' & E & _ & _ & Hp & Hg); [discriminate|].
  exists m', w'. split; [exact E|]. split; [exact Hp | exact Hg].
Defined.

Lemma iteration_safe_witness :
  match iteration sample_manager sample_world with
  | Returned ((_, m'), w') =>
      session_ok m' /\
      (List.length (stdin w') < List.length (stdin sample_world))%nat
  | Raised exc => exc = "EOFError"%string
  end.
Proof.
  apply (iteration_safe sample_manager sample_world).
  apply sample_session_ok.
Defined.

Lemma iteration_keeps_pets_witness :
  match iteration sample_manager sample_world with
  | Returned ((_, m'), _) => manager_evolves sample_manager m'
  | Raised _ => True
  end.
Proof.
  apply (iteration_keeps_pets sample_manager sample_world).
  apply sample_session_ok.
Defined.

Lemma main_loop_keeps_pets_witness :
  exists r,
    main_loop 3 sample_manager sample_world = Some r /\
    match r with
    | Returned (m', _) => pets_kept sample_manager m'
    | Raised exc => exc = "EOFError"%string
    end.
Proof.
  apply (main_loop_keeps_pets 3 sample_manager sample_world).
  - apply sample_session_ok.
  - cbn. lia.
Defined.

